(** * Parking-space occupancy detection: a shallow embedding of
      [src/utils/parkingDetection.ts] and its verified properties.

    JavaScript numbers are modelled by exact rationals ([Q]): every
    comparison, [Math.min]/[Math.max]/[Math.abs]/[Math.floor]/[Math.ceil]
    the code performs is the rational one, and rounding error is abstracted
    away.  The two places where a non-finite number matters for control flow
    (the remainder by zero of the frame-skip test, and the [|| 0.5] default)
    are written out explicitly.

    What lives outside the file under study is taken as data of a call:
    the canvas ([getImageData]), the tensor of the frame, the clock, the two
    pretrained models, and the two image kernels that need [Math.sqrt] or a
    bit-pattern scan (edge density and texture complexity). *)

From Stdlib Require Import QArith ZArith List String Ascii Bool Lia Lqa.
From Stdlib Require Import Qround Qminmax Qabs Qpower.
Import ListNotations.

Open Scope Q_scope.

(** ** JavaScript number operations *)

Module JS.

Definition gt (a b : Q) : bool := negb (Qle_bool a b).
Definition lt (a b : Q) : bool := negb (Qle_bool b a).

Definition min (a b : Q) : Q := Qmin a b.
Definition max (a b : Q) : Q := Qmax a b.
Definition abs (a : Q) : Q := Qabs a.
Definition floor (a : Q) : Q := inject_Z (Qfloor a).
Definition ceil (a : Q) : Q := inject_Z (Qceiling a).
(** [Math.round]: nearest integer, halves go up. *)
Definition round (a : Q) : Q := inject_Z (Qfloor (a + (1 # 2))).
Definition pow (a : Q) (n : nat) : Q := Qpower a (Z.of_nat n).

(** [a % m] on integer-valued numbers; [None] is NaN, which is what
    JavaScript yields for a zero divisor. *)
Definition rem (a m : Z) : option Z :=
  if (m =? 0)%Z then None else Some (Z.rem a m).

(** [r !== 0]: NaN is different from every number, 0 included. *)
Definition strict_neq_0 (r : option Z) : bool :=
  match r with
  | None => true
  | Some v => negb (v =? 0)%Z
  end.

(** [r === 0]. *)
Definition strict_eq_0 (r : option Z) : bool := negb (strict_neq_0 r).

(** [v || d] on numbers: 0 (and NaN) are falsy. *)
Definition or_default (v d : Q) : Q := if Qeq_bool v 0 then d else v.

(** [Math.min(...l)] and [Math.max(...l)] of a non-empty list.  The empty
    list (±Infinity in JavaScript) never reaches them: regions with fewer
    than three points are filtered out first. *)
Definition minList (l : list Q) : Q :=
  match l with
  | [] => 0
  | h :: t => fold_left min t h
  end.

Definition maxList (l : list Q) : Q :=
  match l with
  | [] => 0
  | h :: t => fold_left max t h
  end.

(** ASCII [toLowerCase]. *)
Definition lowerAscii (c : ascii) : ascii :=
  let n := nat_of_ascii c in
  if andb (Nat.leb 65 n) (Nat.leb n 90) then ascii_of_nat (n + 32) else c.

Fixpoint toLowerCase (s : string) : string :=
  match s with
  | EmptyString => EmptyString
  | String c s' => String (lowerAscii c) (toLowerCase s')
  end.

(** [s.includes(sub)]. *)
Fixpoint includes (s sub : string) : bool :=
  orb (String.prefix sub s)
      match s with
      | EmptyString => false
      | String _ s' => includes s' sub
      end.

(** [s.split(',')[0]]: the characters before the first comma. *)
Fixpoint beforeComma (s : string) : string :=
  match s with
  | EmptyString => EmptyString
  | String c s' =>
      if Ascii.eqb c ","%char then EmptyString else String c (beforeComma s')
  end.

End JS.

(** ** Configuration *)

Module CONFIG.
Definition MIN_CONSECUTIVE_FRAMES : Q := 3.
Definition SHADOW_THRESHOLD : Q := 0.45.
Definition OCCUPANCY_THRESHOLD : Q := 0.50.
Definition MODEL_VERIFICATION_INTERVAL : Z := 3.
Definition EDGE_DENSITY_THRESHOLD : Q := 0.15.
Definition TEXTURE_COMPLEXITY_THRESHOLD : Q := 0.25.
Definition COLOR_VARIANCE_THRESHOLD : Q := 0.25.
Definition MIN_VEHICLE_CONFIDENCE : Q := 0.60.
Definition PARKING_SPACE_MIN_SIZE : Q := 20.
Definition MAX_FRAME_SKIP : Z := 0.
Definition MOTION_INFLUENCE : Q := 0.35.
Definition UNCERTAINTY_THRESHOLD : Q := 0.35.
Definition TARGET_SIZE : Q * Q := (720, 1280).
Definition CONFIDENCE_BOOST : Q := 1.2.
End CONFIG.

(** ** Data model *)

Record Point : Type := mkPoint { x : Q; y : Q }.

Inductive RegionType : Type := rectangle | quadrilateral.

Record Region : Type := mkRegion {
  rid : string;               (* [id] of the region *)
  points : list Point;
  rtype : RegionType          (* [type] *)
}.

Record Features : Type := mkFeatures {
  nonZeroCount : Q;
  brightness : Q;
  edgeDensity : Q;
  textureComplexity : Q;
  perspectiveScore : Q;
  heatmapScore : Q;
  colorVariance : Q;
  motionScore : Q;
  shadowScore : Q;
  stabilityScore : Q
}.

Record ParkingSpace : Type := mkSpace {
  id : Z;
  region : Region;
  isOccupied : bool;
  confidence : Q;
  lastStateChange : Z;
  stateHistory : list bool;
  vehicleType : option string;
  features : Features
}.

Record Settings : Type := mkSettings {
  showDebugInfo : bool;
  useMotionDetection : bool;
  useAdvancedFeatures : bool;
  useModelVerification : bool;
  useTemporalSmoothing : bool;
  useAdaptiveVerification : bool
}.

Definition defaultSettings : Settings :=
  mkSettings false true true true true true.

(** Functional update of [features.stabilityScore] and
    [features.heatmapScore] (the object spreads of the source). *)
Definition withStability (f : Features) (s : Q) : Features :=
  mkFeatures (nonZeroCount f) (brightness f) (edgeDensity f)
             (textureComplexity f) (perspectiveScore f) (heatmapScore f)
             (colorVariance f) (motionScore f) (shadowScore f) s.

Definition withHeatmapStability (f : Features) (h s : Q) : Features :=
  mkFeatures (nonZeroCount f) (brightness f) (edgeDensity f)
             (textureComplexity f) (perspectiveScore f) h
             (colorVariance f) (motionScore f) (shadowScore f) s.

(** ** Region geometry *)

Record Bounds : Type := mkBounds {
  minX : Q; minY : Q; maxX : Q; maxY : Q; width : Q; height : Q
}.

Definition getRegionBounds (r : Region) : Bounds :=
  let xs := map x (points r) in
  let ys := map y (points r) in
  mkBounds (JS.minList xs) (JS.minList ys) (JS.maxList xs) (JS.maxList ys)
           (JS.maxList xs - JS.minList xs) (JS.maxList ys - JS.minList ys).

(** [region.points.map(p => ({x: p.x * sx, y: p.y * sy}))] under [...region]. *)
Definition scaleRegion (sx sy : Q) (r : Region) : Region :=
  mkRegion (rid r)
           (map (fun p => mkPoint (x p * sx) (y p * sy)) (points r))
           (rtype r).

(** [points.every(p => p.x >= 0 && p.x <= 1 && p.y >= 0 && p.y <= 1)]. *)
Definition pointNormalized (p : Point) : bool :=
  Qle_bool 0 (x p) && Qle_bool (x p) 1 && Qle_bool 0 (y p) && Qle_bool (y p) 1.

Definition pointsNormalized (r : Region) : bool :=
  forallb pointNormalized (points r).

(** The filter that builds [validRegions].  Coordinates of the model are
    always finite numbers and ids always strings, so what remains of the
    test is the number of points. *)
Definition isValidRegion (r : Region) : bool :=
  (3 <=? List.length (points r))%nat.

(** ** Pixel buffers and the features read off them *)

Module ImageData.
Record t : Type := mk { width : Z; height : Z; data : list Z }.
End ImageData.

(** The loops [for (i = 0; i < data.length; i += 4)] walk the RGBA buffer one
    pixel at a time; an [ImageData] buffer always holds whole pixels. *)
Fixpoint countNonZeroPixelsData (d : list Z) : Z :=
  match d with
  | r :: g :: b :: _ :: rest =>
      ((if (25 <? r) || (25 <? g) || (25 <? b) then 1 else 0)
       + countNonZeroPixelsData rest)%Z
  | _ => 0%Z
  end.

Definition countNonZeroPixels (img : ImageData.t) : Z :=
  countNonZeroPixelsData (ImageData.data img).

(** The running sum [brightness] is kept in lowest terms ([Qred]), which
    leaves its value unchanged. *)
Fixpoint brightnessSum (d : list Z) (acc : Q) : Q :=
  match d with
  | r :: g :: b :: _ :: rest =>
      brightnessSum rest
        (Qred (acc + (0.299 * inject_Z r + 0.587 * inject_Z g
                      + 0.114 * inject_Z b)))
  | _ => acc
  end.

Definition calculateBrightness (img : ImageData.t) : Q :=
  brightnessSum (ImageData.data img) 0
  / (inject_Z (ImageData.width img) * inject_Z (ImageData.height img) * 255).

(** Running sums [(sumR, sumG, sumB, sumR2, sumG2, sumB2)]. *)
Fixpoint colorSums (d : list Z) (acc : Z * Z * Z * Z * Z * Z)
  : Z * Z * Z * Z * Z * Z :=
  match d with
  | r :: g :: b :: _ :: rest =>
      let '(sumR, sumG, sumB, sumR2, sumG2, sumB2) := acc in
      colorSums rest
        (sumR + r, sumG + g, sumB + b,
         sumR2 + r * r, sumG2 + g * g, sumB2 + b * b)%Z
  | _ => acc
  end.

Definition calculateColorVariance (img : ImageData.t) : Q :=
  let '(sumR, sumG, sumB, sumR2, sumG2, sumB2) :=
    colorSums (ImageData.data img) (0, 0, 0, 0, 0, 0)%Z in
  let pixelCount :=
    inject_Z (ImageData.width img) * inject_Z (ImageData.height img) in
  let varianceR :=
    (inject_Z sumR2 - (inject_Z sumR * inject_Z sumR) / pixelCount) / pixelCount in
  let varianceG :=
    (inject_Z sumG2 - (inject_Z sumG * inject_Z sumG) / pixelCount) / pixelCount in
  let varianceB :=
    (inject_Z sumB2 - (inject_Z sumB * inject_Z sumB) / pixelCount) / pixelCount in
  (varianceR + varianceG + varianceB) / (3 * 255 * 255).

Definition calculateDynamicThreshold (img : ImageData.t) : Q :=
  let brightness := calculateBrightness img in
  let colorVariance := calculateColorVariance img in
  CONFIG.OCCUPANCY_THRESHOLD * (1 + (0.5 - brightness)) * (1 + colorVariance).

(** ** Frame tensors and the motion estimator *)

(** A [tf.Tensor3D] of shape [[h, w, 3]]: its first two dimensions and its
    pixels in row-major order, each channel in [0,1]. *)
Record Tensor3D : Type := mkTensor {
  shape : Z * Z;
  pixels : list (Q * Q * Q)
}.

(** [tf.image.rgbToGrayscale], with the weights of TensorFlow.js. *)
Definition rgbToGrayscale (p : Q * Q * Q) : Q :=
  let '(r, g, b) := p in 0.2989 * r + 0.5870 * g + 0.1140 * b.

(** [tf.abs(tf.sub(a, b))] on two tensors of one shape, element by element.
    Consecutive frames of one source have one shape; what [tf.sub] does on
    unequal shapes (it throws or broadcasts) is not modelled. *)
Definition absDiff (a b : list Q) : list Q :=
  map (fun ab => JS.abs (fst ab - snd ab)) (combine a b).

(** [tf.sum(tf.cast(thresholded, 'float32'))]. *)
Definition countTrue (l : list bool) : Z :=
  fold_right (fun (b : bool) (acc : Z) => ((if b then 1 else 0) + acc)%Z) 0%Z l.

Definition calculateEnhancedMotionScore
  (currentFrame : Tensor3D) (previousFrame : option Tensor3D) : Q :=
  match previousFrame with
  | None => 0
  | Some previousFrame =>
      let currentGray := map rgbToGrayscale (pixels currentFrame) in
      let previousGray := map rgbToGrayscale (pixels previousFrame) in
      let diff := absDiff currentGray previousGray in
      let thresholded := map (fun d => JS.gt d 0.05) diff in
      let changedPixels := countTrue thresholded in
      let totalPixels := (fst (shape currentFrame) * snd (shape currentFrame))%Z in
      inject_Z changedPixels / inject_Z totalPixels
  end.

(** ** The two pretrained models and the verification gate *)

Record Prediction : Type := mkPrediction { class : string; score : Q }.

Record Classification : Type := mkClassification {
  className : string;
  probability : Q
}.

(** The window of the frame tensor handed to the models:
    [tf.slice3d(imageTensor, [minY, minX, 0], [cropHeight, cropWidth, 3])]. *)
Record Crop : Type := mkCrop {
  cropMinY : Z; cropMinX : Z; cropHeight : Z; cropWidth : Z
}.

(** A loaded model answers on a crop of a frame; [None] is a call that
    throws (a rejected promise). *)
Definition ObjectDetection : Type := Tensor3D -> Crop -> option (list Prediction).
Definition MobileNet : Type := Tensor3D -> Crop -> option (list Classification).

Inductive OracleCall : Type :=
| DetectCall (c : Crop)
| ClassifyCall (c : Crop).

Definition vehicleClasses : list string :=
  ["car"; "truck"; "bus"; "motorcycle"; "vehicle"; "van"; "suv"; "pickup"]%string.

Definition vehicleKeywords : list string :=
  ["car"; "truck"; "bus"; "motorcycle"; "vehicle"; "van"]%string.

Definition isVehiclePrediction (p : Prediction) : bool :=
  existsb (fun vc => JS.includes (JS.toLowerCase (class p)) vc) vehicleClasses
  && JS.gt (score p) CONFIG.MIN_VEHICLE_CONFIDENCE.

Definition isVehicleFeature (f : Classification) : bool :=
  existsb (fun vk => JS.includes (JS.toLowerCase (className f)) vk) vehicleKeywords
  && JS.gt (probability f) 0.5.

(** [l.reduce((best, current) => current.score > best.score ? current : best)]
    on a non-empty array [h :: t]. *)
Definition bestPredictionOf (h : Prediction) (t : list Prediction) : Prediction :=
  fold_left (fun best current =>
               if JS.gt (score current) (score best) then current else best) t h.

Definition bestFeatureOf (h : Classification) (t : list Classification)
  : Classification :=
  fold_left (fun best current =>
               if JS.gt (probability current) (probability best)
               then current else best) t h.

Definition cropOf (space : ParkingSpace) (imageTensor : Tensor3D) : Crop :=
  let '(height, width) := shape imageTensor in
  let areNormalized := pointsNormalized (region space) in
  let bounds :=
    if areNormalized
    then getRegionBounds
           (scaleRegion (inject_Z width) (inject_Z height) (region space))
    else getRegionBounds (region space) in
  let left := Z.max 0 (Qfloor (minX bounds)) in
  let top := Z.max 0 (Qfloor (minY bounds)) in
  let right := Z.min width (Qceiling (maxX bounds)) in
  let bottom := Z.min height (Qceiling (maxY bounds)) in
  mkCrop top left (bottom - top) (right - left).

(** The merge of the models' answers into the space (the code after
    [Promise.all] has resolved). *)
Definition mergeVerdict (space : ParkingSpace)
  (predictions : list Prediction) (feats : list Classification) : ParkingSpace :=
  let keepHeuristic :=
    mkSpace (id space) (region space) (isOccupied space) (confidence space)
            (lastStateChange space) (stateHistory space) (vehicleType space)
            (withStability (features space)
               (JS.max 0 (stabilityScore (features space) - 0.1))) in
  match filter isVehiclePrediction predictions with
  | p :: ps =>
      let bestPrediction := bestPredictionOf p ps in
      mkSpace (id space) (region space) true
              (score bestPrediction * CONFIG.CONFIDENCE_BOOST)
              (lastStateChange space) (stateHistory space)
              (Some (class bestPrediction))
              (withHeatmapStability (features space) 1
                 (JS.min 1 (stabilityScore (features space) + 0.2)))
  | [] =>
      match feats with
      | f :: fs =>
          if existsb isVehicleFeature feats then
            let bestFeature := bestFeatureOf f fs in
            mkSpace (id space) (region space) true
                    (probability bestFeature * CONFIG.CONFIDENCE_BOOST)
                    (lastStateChange space) (stateHistory space)
                    (Some (JS.beforeComma (className bestFeature)))
                    (withHeatmapStability (features space) 1
                       (JS.min 1 (stabilityScore (features space) + 0.1)))
          else keepHeuristic
      | [] => keepHeuristic
      end
  end.

(** [verifyWithModel]: the resulting space and the model calls it issued.
    Both calls are issued together ([Promise.all]); if either rejects, the
    [catch] returns the space it was given. *)
Definition verifyWithModel
  (objectDetector : option ObjectDetection) (featureExtractor : option MobileNet)
  (space : ParkingSpace) (imageTensor : Tensor3D)
  : ParkingSpace * list OracleCall :=
  match objectDetector, featureExtractor with
  | Some detector, Some extractor =>
      let c := cropOf space imageTensor in
      if (cropHeight c <? 10)%Z || (cropWidth c <? 10)%Z then (space, [])
      else
        (* the slice has the shape just tested *)
        let '(croppedHeight, croppedWidth) := (cropHeight c, cropWidth c) in
        if (croppedHeight <? 10)%Z || (croppedWidth <? 10)%Z then (space, [])
        else
          let calls := [DetectCall c; ClassifyCall c] in
          match detector imageTensor c, extractor imageTensor c with
          | Some predictions, Some feats =>
              (mergeVerdict space predictions feats, calls)
          | _, _ => (space, calls)
          end
  | _, _ => (space, [])
  end.

(** ** Temporal stabilizer *)

(** Lines 1314-1317: append the current state, drop the oldest entry once
    when the length exceeds [MIN_CONSECUTIVE_FRAMES * 1.5]. *)
Definition pushHistory (previous : list bool) (state : bool) : list bool :=
  let stateHistory := previous ++ [state] in
  if JS.gt (inject_Z (Z.of_nat (List.length stateHistory)))
           (CONFIG.MIN_CONSECUTIVE_FRAMES * 1.5)
  then tl stateHistory
  else stateHistory.

Definition historyWeights (stateHistory : list bool) : list Q :=
  map (fun i => JS.pow 0.85 (List.length stateHistory - 1 - i))
      (seq 0 (List.length stateHistory)).

Definition weightedAverageOf (stateHistory : list bool) : Q :=
  let weights := historyWeights stateHistory in
  let weightedSum :=
    fold_left (fun (sum : Q) (vw : bool * Q) =>
                 sum + (if fst vw then snd vw else 0))
              (combine stateHistory weights) 0 in
  let totalWeight := fold_left (fun (sum w : Q) => sum + w) weights 0 in
  weightedSum / totalWeight.

Definition featureConsistencyOf (f fprev : Features) : Q :=
  JS.min 1
    (0.3 * (1 - JS.abs (edgeDensity f - edgeDensity fprev)) +
     0.3 * (1 - JS.abs (textureComplexity f - textureComplexity fprev)) +
     0.2 * (1 - JS.abs (colorVariance f - colorVariance fprev)) +
     0.2 * (1 - JS.abs (brightness f - brightness fprev))).

Definition featureConfidenceOf (f : Features) : Q :=
  JS.min 1
    ((if JS.gt (edgeDensity f) CONFIG.EDGE_DENSITY_THRESHOLD then 1.2 else 0.8) *
     (if JS.gt (textureComplexity f) CONFIG.TEXTURE_COMPLEXITY_THRESHOLD
      then 1.2 else 0.8) *
     (if JS.gt (colorVariance f) CONFIG.COLOR_VARIANCE_THRESHOLD
      then 1.1 else 0.9)).

(** The body of the [map] callback once [previousSpace] has been found. *)
Definition smoothWith (now : Z) (space previousSpace : ParkingSpace)
  : ParkingSpace :=
  let stateHistory := pushHistory (stateHistory previousSpace) (isOccupied space) in
  let weightedAverage := weightedAverageOf stateHistory in
  let featureConsistency :=
    featureConsistencyOf (features space) (features previousSpace) in
  let stabilityFactor :=
    0.7 * stabilityScore (features space) + 0.3 * featureConsistency in
  let newState := JS.gt weightedAverage (0.65 * stabilityFactor) in
  let featureConfidence := featureConfidenceOf (features space) in
  mkSpace (id space) (region space) newState
          (JS.min 1 (weightedAverage * stabilityFactor * featureConfidence))
          (if Bool.eqb newState (isOccupied previousSpace)
           then lastStateChange previousSpace else now)
          stateHistory
          (vehicleType space)
          (withStability (features space)
             (if Bool.eqb newState (isOccupied previousSpace)
              then JS.min 1 (stabilityScore (features space) + 0.08)
              else JS.max 0 (stabilityScore (features space) - 0.15))).

Definition smoothSpace (now : Z) (previousSpaces : list ParkingSpace)
  (space : ParkingSpace) : ParkingSpace :=
  match find (fun s => (id s =? id space)%Z) previousSpaces with
  | None => space
  | Some previousSpace => smoothWith now space previousSpace
  end.

Definition applyEnhancedTemporalSmoothing (settings : Settings) (now : Z)
  (currentSpaces previousSpaces : list ParkingSpace) : list ParkingSpace :=
  if (Nat.eqb (List.length previousSpaces) 0)
     || negb (useTemporalSmoothing settings)
  then currentSpaces
  else map (smoothSpace now previousSpaces) currentSpaces.

Definition createEmptySpace (index : Z) (region : Region) (now : Z)
  : ParkingSpace :=
  mkSpace index region false 0 now [] None
          (mkFeatures 0 0 0 0 0 0 0 0 0 0.5).

(** ** Heuristic classifier *)

Section Pipeline.

(** [calculateEnhancedEdgeFeatures(img).density] (Sobel magnitudes, needs
    [Math.sqrt]) and [calculateEnhancedTextureFeatures(img).complexity]
    (local binary patterns): the two kernels are parameters of the pipeline,
    and everything proved below holds whatever they compute. *)
Variable edgeDensityKernel : ImageData.t -> Q.
Variable textureComplexityKernel : ImageData.t -> Q.

Definition calculateEnhancedShadowScore (img : ImageData.t) : Q :=
  let edgeScore :=
    JS.max 0 (1 - (edgeDensityKernel img / (CONFIG.EDGE_DENSITY_THRESHOLD * 1.5))) in
  let textureScore :=
    JS.max 0 (1 - (textureComplexityKernel img
                   / (CONFIG.TEXTURE_COMPLEXITY_THRESHOLD * 1.5))) in
  let colorScore :=
    JS.max 0 (1 - (calculateColorVariance img
                   / (CONFIG.COLOR_VARIANCE_THRESHOLD * 1.5))) in
  let brightnessScore := JS.max 0 (1 - (calculateBrightness img / 0.5)) in
  edgeScore * 0.4 + textureScore * 0.3 + colorScore * 0.2 + brightnessScore * 0.1.

(** What the classifier reads for one region (lines 1045-1054 and the shared
    motion score). *)
Record Readings : Type := mkReadings {
  r_nonZeroCount : Q;
  r_normalizedCount : Q;
  r_shadowScore : Q;
  r_dynamicThreshold : Q;
  r_colorVariance : Q;
  r_textureComplexity : Q;
  r_edgeDensity : Q;
  r_brightness : Q;
  r_motionScore : Q;
  r_stabilityScore : Q
}.

(** [previousSpace?.features.stabilityScore || 0.5]. *)
Definition carriedStability (previousSpace : option ParkingSpace) : Q :=
  match previousSpace with
  | Some p => JS.or_default (stabilityScore (features p)) 0.5
  | None => 0.5
  end.

Definition readFeatures (img : ImageData.t) (motionScore : Q)
  (previousSpace : option ParkingSpace) : Readings :=
  let nonZeroCount := inject_Z (countNonZeroPixels img) in
  let normalizedCount :=
    nonZeroCount
    / (inject_Z (ImageData.width img) * inject_Z (ImageData.height img)) in
  mkReadings nonZeroCount normalizedCount
             (calculateEnhancedShadowScore img)
             (calculateDynamicThreshold img)
             (calculateColorVariance img)
             (textureComplexityKernel img)
             (edgeDensityKernel img)
             (calculateBrightness img)
             motionScore
             (carriedStability previousSpace).

Definition isShadow (r : Readings) : bool :=
  JS.lt (r_shadowScore r) CONFIG.SHADOW_THRESHOLD.

Definition occupancyScore (r : Readings) : Q :=
  let hasMotion :=
    JS.gt (r_motionScore r) (CONFIG.MOTION_INFLUENCE * r_stabilityScore r) in
  let hasTexture :=
    JS.gt (r_textureComplexity r) CONFIG.TEXTURE_COMPLEXITY_THRESHOLD in
  let hasEdges := JS.gt (r_edgeDensity r) CONFIG.EDGE_DENSITY_THRESHOLD in
  let hasColorVariation :=
    JS.gt (r_colorVariance r) CONFIG.COLOR_VARIANCE_THRESHOLD in
  (r_normalizedCount r * 0.35) +
  (if hasTexture then 0.25 else 0) +
  (if hasEdges then 0.25 else 0) +
  (if hasColorVariation then 0.10 else 0) +
  (if hasMotion then 0.05 else 0).

Definition heuristicIsOccupied (r : Readings) : bool :=
  negb (isShadow r) && JS.gt (occupancyScore r) (r_dynamicThreshold r).

Definition heuristicConfidence (r : Readings) : Q :=
  let errorMargin := JS.abs (occupancyScore r - r_dynamicThreshold r) in
  let baseConfidence :=
    if negb (isShadow r) then JS.max 0.5 (1 - errorMargin) else 0.3 in
  JS.min 1 (baseConfidence * (1 + 0.2 * r_motionScore r)
            * JS.max 0.7 (r_stabilityScore r)).

(** The [space] built at lines 1083-1102. *)
Definition heuristicSpace (index : Z) (normalizedRegion : Region) (now : Z)
  (bounds : Bounds) (canvasHeight : Q)
  (previousSpace : option ParkingSpace) (r : Readings) : ParkingSpace :=
  mkSpace index normalizedRegion
          (heuristicIsOccupied r)
          (heuristicConfidence r)
          now
          (match previousSpace with
           | Some p => stateHistory p
           | None => []
           end)
          None
          (mkFeatures (r_nonZeroCount r) (r_brightness r) (r_edgeDensity r)
                      (r_textureComplexity r)
                      (1 - ((minY bounds + maxY bounds) / 2) / canvasHeight)
                      (r_normalizedCount r)
                      (r_colorVariance r) (r_motionScore r) (r_shadowScore r)
                      (r_stabilityScore r)).

Definition shouldVerify (modelsLoaded : bool) (settings : Settings)
  (frameCount : Z) (space : ParkingSpace) (r : Readings) : bool :=
  modelsLoaded && useAdaptiveVerification settings &&
  (JS.strict_eq_0 (JS.rem frameCount CONFIG.MODEL_VERIFICATION_INTERVAL)
   || (isOccupied space && JS.lt (confidence space) 0.85)
   || (negb (isOccupied space)
       && JS.gt (confidence space) (CONFIG.UNCERTAINTY_THRESHOLD * 0.8))
   || (JS.gt (r_motionScore r) 0.25
       && JS.lt (JS.abs (occupancyScore r - r_dynamicThreshold r)) 0.1)).

(** ** Module state and the inputs of a detection call *)

Record Globals : Type := mkGlobals {
  objectDetector : option ObjectDetection;
  featureExtractor : option MobileNet;
  modelLoadAttempts : Z;
  frameCount : Z;
  lastFrameTime : Z;
  previousFrame : option Tensor3D;
  settings : Settings
}.

Definition MAX_MODEL_LOAD_ATTEMPTS : Z := 3.

(** [loadModels], seen from a detection call: [fetched] is what a load
    attempt delivers, should one be made ([None]: it fails or times out). *)
Definition loadModels (g : Globals)
  (fetched : option (ObjectDetection * MobileNet)) : Globals * bool :=
  match objectDetector g, featureExtractor g with
  | Some _, Some _ => (g, true)
  | _, _ =>
      if (MAX_MODEL_LOAD_ATTEMPTS <=? modelLoadAttempts g)%Z then (g, false)
      else
        match fetched with
        | Some (detector, extractor) =>
            (mkGlobals (Some detector) (Some extractor)
                       (modelLoadAttempts g + 1) (frameCount g)
                       (lastFrameTime g) (previousFrame g) (settings g), true)
        | None =>
            (mkGlobals None None
                       (modelLoadAttempts g + 1) (frameCount g)
                       (lastFrameTime g) (previousFrame g) (settings g), false)
        end
  end.

Inductive MediaKind : Type := ImageURL | VideoElement | ImageElement.

(** The frame handed to a call, as the browser presents it. *)
Record Source : Type := mkSource {
  present : bool;                 (* [imageSource] is truthy *)
  kind : MediaKind;
  loads : bool;                   (* the image decodes / is complete *)
  ended : bool;                   (* [video.ended] *)
  originalWidth : Z;              (* [videoWidth] / [naturalWidth] *)
  originalHeight : Z;
  contextAvailable : bool;        (* [canvas.getContext('2d')] is not null *)
  drawable : bool;                (* [ctx.drawImage] does not throw *)
  getImageData : Q -> Q -> Q -> Q -> option ImageData.t;
                                  (* [None]: [ctx.getImageData] throws *)
  tensor : Tensor3D               (* [tf.browser.fromPixels(canvas) / 255] *)
}.

(** The readings of [Date.now()] during a call. *)
Record Clock : Type := mkClock {
  currentTime : Z;                (* on entry *)
  regionTime : nat -> Z;          (* while region [index] is processed *)
  smoothingTime : Z               (* in the temporal stabilizer *)
}.

(** Which [return] produced a result. *)
Inductive Path : Type := Skipped | VideoEnded | Processed.

Record DetectionResult : Type := mkResult {
  total : Z;
  occupied : Z;
  available : Z;
  spaces : list ParkingSpace;
  path : Path;                          (* observation, not a JS field *)
  oracleCalls : list (list OracleCall)  (* per region; observation *)
}.

Definition countSpaces (f : ParkingSpace -> bool) (l : list ParkingSpace) : Z :=
  Z.of_nat (List.length (filter f l)).

Definition resultOf (spaces : list ParkingSpace) (p : Path)
  (calls : list (list OracleCall)) : DetectionResult :=
  mkResult (Z.of_nat (List.length spaces))
           (countSpaces isOccupied spaces)
           (countSpaces (fun s => negb (isOccupied s)) spaces)
           spaces p calls.

(** Lines 892-913: the processing resolution, [(canvasWidth, canvasHeight)]. *)
Definition canvasSize (originalWidth originalHeight : Z) : Q * Q :=
  let aspectRatio := inject_Z originalWidth / inject_Z originalHeight in
  let targetWidth := snd CONFIG.TARGET_SIZE in
  let targetHeight := fst CONFIG.TARGET_SIZE in
  let targetAspectRatio := targetWidth / targetHeight in
  if JS.lt (JS.abs (aspectRatio - targetAspectRatio)) 0.01
  then (targetWidth, targetHeight)
  else if JS.gt aspectRatio targetAspectRatio
       then (targetWidth, JS.round (targetWidth / aspectRatio))
       else (JS.round (targetHeight * aspectRatio), targetHeight).

(** Lines 929-974. *)
Definition scaleRegions (canvasWidth canvasHeight : Q)
  (originalWidth originalHeight : Z) (validRegions : list Region) : list Region :=
  let areRegionsNormalized := forallb pointsNormalized validRegions in
  if areRegionsNormalized
  then map (scaleRegion canvasWidth canvasHeight) validRegions
  else
    let scaleX := canvasWidth / inject_Z originalWidth in
    let scaleY := canvasHeight / inject_Z originalHeight in
    map (scaleRegion scaleX scaleY) validRegions.

Definition tooSmall (bounds : Bounds) : bool :=
  JS.lt (width bounds) CONFIG.PARKING_SPACE_MIN_SIZE
  || JS.lt (height bounds) CONFIG.PARKING_SPACE_MIN_SIZE.

(** The callback of [scaledRegions.map] (lines 1020-1126): the space of
    region [index] before temporal smoothing, and the model calls made. *)
Definition processRegion (g : Globals) (modelsLoaded : bool) (src : Source)
  (canvasWidth canvasHeight : Q) (motionScore : Q)
  (previousSpaces : list ParkingSpace) (clock : Clock)
  (index : nat) (validRegion scaledRegion : Region)
  : ParkingSpace * list OracleCall :=
  let normalizedRegion :=
    mkRegion (rid validRegion) (points validRegion) (rtype validRegion) in
  let bounds := getRegionBounds scaledRegion in
  if tooSmall bounds
  then (createEmptySpace (Z.of_nat index) normalizedRegion
                         (regionTime clock index), [])
  else
    match getImageData src
            (JS.max 0 (minX bounds))
            (JS.max 0 (minY bounds))
            (JS.min (canvasWidth - minX bounds) (width bounds))
            (JS.min (canvasHeight - minY bounds) (height bounds)) with
    | None =>
        (* the [catch] of the callback *)
        (createEmptySpace (Z.of_nat index) normalizedRegion
                          (regionTime clock index), [])
    | Some regionImageData =>
        let previousSpace :=
          find (fun s => (id s =? Z.of_nat index)%Z) previousSpaces in
        let r := readFeatures regionImageData motionScore previousSpace in
        let space :=
          heuristicSpace (Z.of_nat index) normalizedRegion
                         (regionTime clock index) bounds canvasHeight
                         previousSpace r in
        if shouldVerify modelsLoaded (settings g) (frameCount g) space r
        then verifyWithModel (objectDetector g) (featureExtractor g)
                             space (tensor src)
        else (space, [])
    end.

Fixpoint mapRegions (f : nat -> Region -> Region -> ParkingSpace * list OracleCall)
  (index : nat) (validRegions scaledRegions : list Region)
  : list (ParkingSpace * list OracleCall) :=
  match validRegions, scaledRegions with
  | v :: vs, s :: ss => f index v s :: mapRegions f (S index) vs ss
  | _, _ => []
  end.

(** Lines 886-1156: the frame is processed. *)
Definition processFrame (g : Globals) (modelsLoaded : bool) (clock : Clock)
  (src : Source) (validRegions : list Region)
  (previousSpaces : list ParkingSpace)
  : Globals * (string + DetectionResult) :=
  let '(canvasWidth, canvasHeight) :=
    canvasSize (originalWidth src) (originalHeight src) in
  if negb (drawable src)
  then (g, inl "Failed to process image/video frame"%string)
  else
    let scaledRegions :=
      scaleRegions canvasWidth canvasHeight
                   (originalWidth src) (originalHeight src) validRegions in
    let motionScore :=
      if useMotionDetection (settings g)
      then calculateEnhancedMotionScore (tensor src) (previousFrame g)
      else 0 in
    let g' :=
      mkGlobals (objectDetector g) (featureExtractor g) (modelLoadAttempts g)
                (frameCount g) (lastFrameTime g) (Some (tensor src))
                (settings g) in
    let results :=
      mapRegions (processRegion g modelsLoaded src canvasWidth canvasHeight
                                motionScore previousSpaces clock)
                 0 validRegions scaledRegions in
    let spaces :=
      applyEnhancedTemporalSmoothing (settings g) (smoothingTime clock)
                                     (map fst results) previousSpaces in
    (g', inr (resultOf spaces Processed (map snd results))).

(** Line 785. *)
Definition skipsFrame (timeDiff frameCount : Z) : bool :=
  JS.lt (inject_Z timeDiff) (1000 / 30)
  && (0 <? frameCount)%Z
  && JS.strict_neq_0 (JS.rem frameCount CONFIG.MAX_FRAME_SKIP).

Definition detectParkingSpaces (g : Globals) (clock : Clock)
  (fetched : option (ObjectDetection * MobileNet))
  (imageSource : Source) (regions : list Region)
  (previousSpaces : list ParkingSpace)
  : Globals * (string + DetectionResult) :=
  if negb (present imageSource)
  then (g, inl "Invalid image source"%string)
  else
    let validRegions := filter isValidRegion regions in
    let timeDiff := (currentTime clock - lastFrameTime g)%Z in
    let g1 :=
      mkGlobals (objectDetector g) (featureExtractor g) (modelLoadAttempts g)
                (frameCount g) (currentTime clock) (previousFrame g)
                (settings g) in
    if skipsFrame timeDiff (frameCount g1)
    then
      (mkGlobals (objectDetector g1) (featureExtractor g1)
                 (modelLoadAttempts g1) (frameCount g1 + 1)
                 (lastFrameTime g1) (previousFrame g1) (settings g1),
       inr (resultOf previousSpaces Skipped []))
    else
      let '(g2, modelsLoaded) := loadModels g1 fetched in
      let g3 :=
        mkGlobals (objectDetector g2) (featureExtractor g2)
                  (modelLoadAttempts g2) (frameCount g2 + 1)
                  (lastFrameTime g2) (previousFrame g2) (settings g2) in
      if negb (contextAvailable imageSource)
      then (g3, inl "Could not get canvas context"%string)
      else
        match kind imageSource with
        | ImageURL =>
            if negb (loads imageSource)
            then (g3, inl "Failed to load image"%string)
            else processFrame g3 modelsLoaded clock imageSource
                              validRegions previousSpaces
        | VideoElement =>
            if ended imageSource
            then (g3, inr (resultOf previousSpaces VideoEnded []))
            else if (originalWidth imageSource =? 0)%Z
                    || (originalHeight imageSource =? 0)%Z
                 then (g3, inl "Video has invalid dimensions"%string)
                 else processFrame g3 modelsLoaded clock imageSource
                                   validRegions previousSpaces
        | ImageElement =>
            if negb (loads imageSource)
               || (originalWidth imageSource =? 0)%Z
            then (g3, inl "Image is not fully loaded or has invalid dimensions"%string)
            else processFrame g3 modelsLoaded clock imageSource
                              validRegions previousSpaces
        end.

(** The caller's loop (LiveDetection.tsx, lines 3195-3208): each call is fed
    the spaces returned by the one before, starting from none; a call that
    throws leaves them as they were. *)
Record CallInput : Type := mkCall {
  callClock : Clock;
  callFetched : option (ObjectDetection * MobileNet);
  callSource : Source;
  callRegions : list Region
}.

Fixpoint runDetection (g : Globals) (previousSpaces : list ParkingSpace)
  (calls : list CallInput) : list ParkingSpace :=
  match calls with
  | [] => previousSpaces
  | c :: rest =>
      match detectParkingSpaces g (callClock c) (callFetched c) (callSource c)
                                (callRegions c) previousSpaces with
      | (g', inr results) => runDetection g' (spaces results) rest
      | (g', inl _) => runDetection g' previousSpaces rest
      end
  end.

End Pipeline.

(** ** Definitions that follow the wording of the specification *)

Module Spec.

Definition indicator (b : bool) : Q := if b then 1 else 0.

(** 0.35×nonZeroCoverage + 0.25×(1 if textureComplexity>threshold else 0)
    + 0.25×(1 if edgeDensity>threshold else 0)
    + 0.10×(1 if colorVariance>threshold else 0)
    + 0.05×(1 if motionScore>0.35×stability else 0). *)
Definition occupancyScore (r : Readings) : Q :=
  0.35 * r_normalizedCount r
  + 0.25 * indicator (JS.gt (r_textureComplexity r) 0.25)
  + 0.25 * indicator (JS.gt (r_edgeDensity r) 0.15)
  + 0.10 * indicator (JS.gt (r_colorVariance r) 0.25)
  + 0.05 * indicator (JS.gt (r_motionScore r) (0.35 * r_stabilityScore r)).

(** isShadow = shadowScore < 0.45. *)
Definition isShadow (r : Readings) : Prop := r_shadowScore r < 0.45.

(** isOccupied = !isShadow AND occupancyScore > dynamicThreshold. *)
Definition occupied (r : Readings) : Prop :=
  ~ isShadow r /\ r_dynamicThreshold r < occupancyScore r.

(** A pixel changed when its grayscale values in the two frames differ, in
    absolute value, by more than 0.05. *)
Definition pixelChanged (cp : (Q * Q * Q) * (Q * Q * Q)) : bool :=
  JS.gt (JS.abs (rgbToGrayscale (fst cp) - rgbToGrayscale (snd cp))) 0.05.


(** A tensor holds one pixel per position of its (non-empty) shape. *)
Definition wellShaped (t : Tensor3D) : Prop :=
  (0 < fst (shape t))%Z /\ (0 < snd (shape t))%Z /\
  Z.of_nat (List.length (pixels t)) = (fst (shape t) * snd (shape t))%Z.


(** Verification fails: a model is not loaded, the crop is smaller than
    10x10, or one of the two model calls throws. *)
Definition verificationFails
  (objectDetector : option ObjectDetection) (featureExtractor : option MobileNet)
  (space : ParkingSpace) (imageTensor : Tensor3D) : Prop :=
  objectDetector = None \/ featureExtractor = None \/
  (cropHeight (cropOf space imageTensor) < 10)%Z \/
  (cropWidth (cropOf space imageTensor) < 10)%Z \/
  (exists detector, objectDetector = Some detector /\
                    detector imageTensor (cropOf space imageTensor) = None) \/
  (exists extractor, featureExtractor = Some extractor /\
                     extractor imageTensor (cropOf space imageTensor) = None).


(** The bound of the rolling history: ceil(MIN_CONSECUTIVE_FRAMES × 1.5). *)
Definition historyBound : nat :=
  Z.to_nat (Qceiling (CONFIG.MIN_CONSECUTIVE_FRAMES * 1.5)).

Definition historyBounded (s : ParkingSpace) : Prop :=
  (List.length (stateHistory s) <= historyBound)%nat.

End Spec.

(** ** Concrete frames, regions and models used by the examples *)

Module Example.

(** A 1280x720 video frame, uniformly mid-gray (128 of 255 on every
    channel). *)
Definition grayPixel : Q * Q * Q := (128 # 255, 128 # 255, 128 # 255).

Definition grayTensor : Tensor3D :=
  mkTensor (720, 1280)%Z (repeat grayPixel (720 * 1280)).

Definition uniformImage (w h : Z) : ImageData.t :=
  ImageData.mk w h
    (List.concat (repeat [128; 128; 128; 255]%Z (Z.to_nat (w * h)))).

Definition grayCanvas (sx sy sw sh : Q) : option ImageData.t :=
  Some (uniformImage (Qfloor sw) (Qfloor sh)).

Definition grayVideo : Source :=
  mkSource true VideoElement true false 1280 720 true true grayCanvas grayTensor.

(** On a uniform image the Sobel response is 0 everywhere and every local
    binary pattern is uniform: these are the values of the two kernels. *)
Definition edgeOfUniform (_ : ImageData.t) : Q := 0.
Definition textureOfUniform (_ : ImageData.t) : Q := 1.

Definition clockAt (t : Z) : Clock := mkClock t (fun _ => t) t.

(** The module state right after import, before any model is loaded. *)
Definition initialGlobals : Globals :=
  mkGlobals None None 0 0 0 None defaultSettings.

(** A 32x36 pixel slot, in normalized coordinates. *)
Definition slot : Region :=
  mkRegion "slot"
           [mkPoint 0.25 0.25; mkPoint 0.275 0.25;
            mkPoint 0.275 0.30; mkPoint 0.25 0.30]
           rectangle.

(** The same slot drawn in pixel coordinates of the 1280x720 frame. *)
Definition pixelSlot : Region :=
  mkRegion "slot"
           [mkPoint 320 180; mkPoint 352 180; mkPoint 352 216; mkPoint 320 216]
           rectangle.

(** A region of 12.8 x 7.2 processing pixels. *)
Definition tiny : Region :=
  mkRegion "tiny"
           [mkPoint 0.5 0.5; mkPoint 0.51 0.5;
            mkPoint 0.51 0.51; mkPoint 0.5 0.51]
           rectangle.

(** A detector that reports a car at score 0.9, a classifier that reports
    nothing, and a detector that throws. *)
Definition carDetector : ObjectDetection :=
  fun _ _ => Some [mkPrediction "car" 0.9].
Definition silentClassifier : MobileNet := fun _ _ => Some [].
Definition throwingDetector : ObjectDetection := fun _ _ => None.

Definition spacesOf (r : Globals * (string + DetectionResult))
  : list ParkingSpace :=
  match snd r with
  | inr res => spaces res
  | inl _ => []
  end.

Definition pathOf (r : Globals * (string + DetectionResult)) : option Path :=
  match snd r with
  | inr res => Some (path res)
  | inl _ => None
  end.

Definition detect := detectParkingSpaces edgeOfUniform textureOfUniform.

(** First call on the gray frame with the models delivered by the loader. *)
Definition carCall :=
  detect initialGlobals (clockAt 1000) (Some (carDetector, silentClassifier))
         grayVideo [slot] [].

(** The slot given in pixel coordinates, no model available. *)
Definition pixelCall :=
  detect initialGlobals (clockAt 1000) None grayVideo [pixelSlot] [].

(** Two calls on the tiny region, 100 ms apart, the second one fed with the
    spaces of the first. *)
Definition tinyFirst :=
  detect initialGlobals (clockAt 1000) None grayVideo [tiny] [].
Definition tinySecond :=
  detect (fst tinyFirst) (clockAt 1100) None grayVideo [tiny]
         (spacesOf tinyFirst).

(** Two calls with identical frame, regions and previous spaces, 10 ms
    apart, no model available. *)
Definition repeatFirst :=
  detect initialGlobals (clockAt 1000) None grayVideo [slot] [].
Definition repeatSecond :=
  detect (fst repeatFirst) (clockAt 1010) None grayVideo [slot] [].

(** A space at the floor of the stability score, and its previous state. *)
Definition flooredFeatures : Features := mkFeatures 0 0.5 0 1 0.5 0 0 0 0.6 0.
Definition flooredSpace : ParkingSpace :=
  mkSpace 0 slot false 0.5 1000 [] None flooredFeatures.
Definition flooredPrevious : ParkingSpace :=
  mkSpace 0 slot true 0.5 900 [] None flooredFeatures.

(** A space found vacant at stability 0.5. *)
Definition vacatedSpace : ParkingSpace :=
  mkSpace 0 slot false 0.5 1000 [] None
          (mkFeatures 0 0.5 0 1 0.5 0 0 0 0.6 0.5).

(** A space whose crop is below 10x10 on the gray frame. *)
Definition tinySpace : ParkingSpace :=
  mkSpace 0 tiny true 0.6 1000 [] None (mkFeatures 0 0.5 0 1 0.5 0 0 0 0.6 0.5).

(** Readings with a large occupancy score under a shadow. *)
Definition shadowed : Readings :=
  mkReadings 400 1 0.3 0.5 0.3 0.9 0.9 0.5 0.9 0.5.

(** Two 1x2 frames that differ in their first pixel only. *)
Definition frameA : Tensor3D := mkTensor (1, 2)%Z [(0, 0, 0); (0.5, 0.5, 0.5)].
Definition frameB : Tensor3D := mkTensor (1, 2)%Z [(1, 1, 1); (0.5, 0.5, 0.5)].

End Example.

(** ** Further operations of the detection module *)


(** A [Partial<typeof settings>]: [None] is a key that is absent. *)
Record SettingsPatch : Type := mkPatch {
  patchShowDebugInfo : option bool;
  patchUseMotionDetection : option bool;
  patchUseAdvancedFeatures : option bool;
  patchUseModelVerification : option bool;
  patchUseTemporalSmoothing : option bool;
  patchUseAdaptiveVerification : option bool
}.

Definition assignField (old : bool) (new : option bool) : bool :=
  match new with
  | Some b => b
  | None => old
  end.

(** [Object.assign(settings, newSettings)]. *)
Definition assignSettings (s : Settings) (newSettings : SettingsPatch) : Settings :=
  mkSettings (assignField (showDebugInfo s) (patchShowDebugInfo newSettings))
             (assignField (useMotionDetection s)
                          (patchUseMotionDetection newSettings))
             (assignField (useAdvancedFeatures s)
                          (patchUseAdvancedFeatures newSettings))
             (assignField (useModelVerification s)
                          (patchUseModelVerification newSettings))
             (assignField (useTemporalSmoothing s)
                          (patchUseTemporalSmoothing newSettings))
             (assignField (useAdaptiveVerification s)
                          (patchUseAdaptiveVerification newSettings)).

Definition updateSettings (g : Globals) (newSettings : SettingsPatch) : Globals :=
  mkGlobals (objectDetector g) (featureExtractor g) (modelLoadAttempts g)
            (frameCount g) (lastFrameTime g) (previousFrame g)
            (assignSettings (settings g) newSettings).

(** ** The image kernels *)

(** [data[idx]]; an index outside the buffer reads [undefined] in
    JavaScript, which no well-formed image ever does. *)
Definition byteAt (data : list Z) (idx : Z) : Z := nth (Z.to_nat idx) data 0%Z.

(** [(data[idx] + data[idx + 1] + data[idx + 2]) / 3]. *)
Definition grayAt (data : list Z) (idx : Z) : Q :=
  (inject_Z (byteAt data idx) + inject_Z (byteAt data (idx + 1))
   + inject_Z (byteAt data (idx + 2))) / 3.

(** The integers [from, from + 1, ..., below - 1] of a [for] loop. *)
Definition range (from below : Z) : list Z :=
  map (fun k => (from + Z.of_nat k)%Z) (seq 0 (Z.to_nat (below - from))).

Definition neighbors : list (Z * Z) :=
  [(-1, -1); (-1, 0); (-1, 1); (0, -1); (0, 1); (1, -1); (1, 0); (1, 1)]%Z.

(** The 8-neighbour local binary pattern of pixel [(x, y)]
    (lines 1271-1278): bit [i] is set when neighbour [i] is brighter than
    the centre. *)
Definition lbpPattern (data : list Z) (width y x : Z) : Z :=
  let centerIdx := ((y * width + x) * 4)%Z in
  let centerValue := grayAt data centerIdx in
  fold_left
    (fun (pattern : Z) (i : Z) =>
       let '(dy, dx) := nth (Z.to_nat i) neighbors (0, 0)%Z in
       let idx := (((y + dy) * width + (x + dx)) * 4)%Z in
       let val := grayAt data idx in
       if JS.gt val centerValue then Z.lor pattern (Z.shiftl 1 i) else pattern)
    (range 0 8) 0%Z.

(** Lines 1280-1285: the number of bit changes around the ring. *)
Definition lbpTransitions (pattern : Z) : Z :=
  fold_left
    (fun (transitions : Z) (i : Z) =>
       let bit1 := Z.land (Z.shiftr pattern i) 1 in
       let bit2 := Z.land (Z.shiftr pattern (Z.rem (i + 1) 8)) 1 in
       if (bit1 =? bit2)%Z then transitions else (transitions + 1)%Z)
    (range 0 8) 0%Z.

(** The interior pixels [(y, x)] in the order the two loops visit them. *)
Definition interior (img : ImageData.t) : list (Z * Z) :=
  flat_map (fun y => map (fun x => (y, x)) (range 1 (ImageData.width img - 1)))
           (range 1 (ImageData.height img - 1)).

(** The counters [(complexity, total)] at the end of the loops. *)
Definition textureCounts (img : ImageData.t) : Z * Z :=
  fold_left
    (fun (ct : Z * Z) (yx : Z * Z) =>
       let '(complexity, total) := ct in
       let pattern :=
         lbpPattern (ImageData.data img) (ImageData.width img)
                    (fst yx) (snd yx) in
       ((if (lbpTransitions pattern <=? 2)%Z then complexity + 1 else complexity),
        total + 1)%Z)
    (interior img) (0, 0)%Z.

(** [calculateTextureComplexity(img)], which is also
    [calculateEnhancedTextureFeatures(img).complexity]. *)
Definition calculateTextureComplexity (img : ImageData.t) : Q :=
  let '(complexity, total) := textureCounts img in
  inject_Z complexity / inject_Z total.

Section EdgeKernel.

(** [Math.sqrt]. *)
Variable sqrt : Q -> Q.

Definition sobelX : list (list Q) := [[-1; 0; 1]; [-2; 0; 2]; [-1; 0; 1]].
Definition sobelY : list (list Q) := [[-1; -2; -1]; [0; 0; 0]; [1; 2; 1]].

Definition kernelAt (k : list (list Q)) (i j : Z) : Q :=
  nth (Z.to_nat j) (nth (Z.to_nat i) k []) 0.

(** The two gradients [(gx, gy)] of an interior pixel (lines 404-412). *)
Definition sobelGradients (data : list Z) (width y x : Z) : Q * Q :=
  fold_left
    (fun (g : Q * Q) (ij : Z * Z) =>
       let '(i, j) := ij in
       let idx := (((y + i) * width + (x + j)) * 4)%Z in
       let gray := grayAt data idx in
       (fst g + gray * kernelAt sobelX (i + 1) (j + 1),
        snd g + gray * kernelAt sobelY (i + 1) (j + 1)))
    (flat_map (fun i => map (fun j => (i, j)) (range (-1) 2)) (range (-1) 2))
    (0, 0).

(** [edges[y][x]]: the gradient magnitude inside, 0 on the border. *)
Definition edgeAt (img : ImageData.t) (y x : Z) : Q :=
  if (1 <=? y)%Z && (y <? ImageData.height img - 1)%Z
     && (1 <=? x)%Z && (x <? ImageData.width img - 1)%Z
  then
    let '(gx, gy) :=
      sobelGradients (ImageData.data img) (ImageData.width img) y x in
    sqrt (gx * gx + gy * gy)
  else 0.

Definition detectEdges (img : ImageData.t) : list (list Q) :=
  map (fun y => map (fun x => edgeAt img y x) (range 0 (ImageData.width img)))
      (range 0 (ImageData.height img)).

(** [calculateEdgeDensity]. *)
Definition calculateEdgeDensity (img : ImageData.t) : Q :=
  let strength :=
    fold_left (fun (s : Q) (row : list Q) =>
                 fold_left (fun (s' v : Q) => s' + v) row s)
              (detectEdges img) 0 in
  strength
  / (inject_Z (ImageData.width img) * inject_Z (ImageData.height img) * 255).

(** [calculateEnhancedEdgeFeatures(img).density]: only edges stronger than
    25 count.  (The [orientation] it also returns is read nowhere.) *)
Definition calculateEnhancedEdgeDensity (img : ImageData.t) : Q :=
  let strength :=
    fold_left (fun (s : Q) (row : list Q) =>
                 fold_left (fun (s' v : Q) =>
                              if JS.gt v 25 then s' + v else s') row s)
              (detectEdges img) 0 in
  strength
  / (inject_Z (ImageData.width img) * inject_Z (ImageData.height img) * 255).

End EdgeKernel.

(** ** Well-formed inputs *)

Module Wf.

(** The RGB triples of an RGBA buffer, in order. *)
Fixpoint pixelsOf (d : list Z) : list (Z * Z * Z) :=
  match d with
  | r :: g :: b :: _ :: rest => (r, g, b) :: pixelsOf rest
  | _ => []
  end.

Definition isByte (v : Z) : Prop := (0 <= v <= 255)%Z.

(** An [ImageData]: positive dimensions, four bytes per pixel. *)
Definition image (img : ImageData.t) : Prop :=
  (0 < ImageData.width img)%Z /\ (0 < ImageData.height img)%Z /\
  Z.of_nat (List.length (ImageData.data img))
  = (4 * (ImageData.width img * ImageData.height img))%Z /\
  Forall isByte (ImageData.data img).

(** Every pixel of the image has the colour [(r, g, b)]. *)
Definition flat (img : ImageData.t) (r g b : Z) : Prop :=
  forall k : Z,
    (0 <= k < ImageData.width img * ImageData.height img)%Z ->
    byteAt (ImageData.data img) (4 * k) = r /\
    byteAt (ImageData.data img) (4 * k + 1) = g /\
    byteAt (ImageData.data img) (4 * k + 2) = b.

Definition inUnit (q : Q) : Prop := 0 <= q /\ q <= 1.

Definition stabilityInUnit (s : ParkingSpace) : Prop :=
  inUnit (stabilityScore (features s)).

End Wf.

(** ** Further concrete inputs *)

Module Sample.

(** [Math.sqrt] rounded down to three decimals. *)
Definition approxSqrt (q : Q) : Q :=
  inject_Z (Z.sqrt (Qfloor (q * 1000000))) / 1000.

(** A 3x3 image, mid-gray everywhere. *)
Definition flat3 : ImageData.t := Example.uniformImage 3 3.

(** What a detector and a classifier may answer. *)
Definition boxes : list Prediction :=
  [mkPrediction "Car" 0.7; mkPrediction "person" 0.99;
   mkPrediction "truck" 0.95].

Definition labels : list Classification :=
  [mkClassification "grille, radiator grille" 0.3;
   mkClassification "sports car, sport car" 0.8].



End Sample.

(** * Properties *)

(** ** Comparisons *)

Lemma gt_true_iff (a b : Q) : JS.gt a b = true <-> b < a.
Proof.
  unfold JS.gt. rewrite negb_true_iff.
  split; intro H.
  - apply Qnot_le_lt. intro Hle. apply Qle_bool_iff in Hle. congruence.
  - destruct (Qle_bool a b) eqn:E; [|reflexivity].
    apply Qle_bool_iff in E. exfalso. apply (Qlt_not_le _ _ H E).
Qed.

Lemma gt_false_iff (a b : Q) : JS.gt a b = false <-> a <= b.
Proof.
  unfold JS.gt. rewrite negb_false_iff. apply Qle_bool_iff.
Qed.

Lemma lt_true_iff (a b : Q) : JS.lt a b = true <-> a < b.
Proof. unfold JS.lt. apply (gt_true_iff b a). Qed.

Lemma lt_false_iff (a b : Q) : JS.lt a b = false <-> b <= a.
Proof. unfold JS.lt. apply (gt_false_iff b a). Qed.

Lemma min_le_l (a b : Q) : JS.min a b <= a.
Proof. apply Q.le_min_l. Qed.

Lemma min_le_r (a b : Q) : JS.min a b <= b.
Proof. apply Q.le_min_r. Qed.

Lemma max_ge_l (a b : Q) : a <= JS.max a b.
Proof. apply Q.le_max_l. Qed.

(** ** C1: the heuristic classifier *)

Lemma occupancyScore_spec (r : Readings) :
  occupancyScore r == Spec.occupancyScore r.
Proof.
  unfold occupancyScore, Spec.occupancyScore, Spec.indicator.
  change CONFIG.TEXTURE_COMPLEXITY_THRESHOLD with 0.25.
  change CONFIG.EDGE_DENSITY_THRESHOLD with 0.15.
  change CONFIG.COLOR_VARIANCE_THRESHOLD with 0.25.
  change CONFIG.MOTION_INFLUENCE with 0.35.
  destruct (JS.gt (r_textureComplexity r) 0.25),
           (JS.gt (r_edgeDensity r) 0.15),
           (JS.gt (r_colorVariance r) 0.25),
           (JS.gt (r_motionScore r) (0.35 * r_stabilityScore r)); lra.
Qed.

Lemma isShadow_spec (r : Readings) : isShadow r = true <-> Spec.isShadow r.
Proof. unfold isShadow, Spec.isShadow. apply lt_true_iff. Qed.

(** C1.  For every bundle of readings the classifier's decision is
    [!isShadow && occupancyScore > dynamicThreshold], with
    [isShadow = shadowScore < 0.45] and the occupancy score the weighted sum
    0.35/0.25/0.25/0.10/0.05 of the specification; this decision is the
    [isOccupied] field of the space the detection builds for the region; and
    a shadow score below 0.45 forces the decision to [false] whatever the
    occupancy score. *)
Theorem C1_heuristic_decision :
  forall r : Readings,
    (heuristicIsOccupied r = true <-> Spec.occupied r) /\
    (forall index region now bounds canvasHeight previousSpace,
        isOccupied (heuristicSpace index region now bounds canvasHeight
                                   previousSpace r)
        = heuristicIsOccupied r) /\
    (r_shadowScore r < 0.45 -> heuristicIsOccupied r = false).
Proof.
  intro r. split; [|split].
  - unfold heuristicIsOccupied, Spec.occupied.
    rewrite andb_true_iff, negb_true_iff, gt_true_iff.
    rewrite (occupancyScore_spec r).
    split; intros [Hs Ho]; split; try assumption.
    + intro Hsh. apply isShadow_spec in Hsh. congruence.
    + destruct (isShadow r) eqn:E; [|reflexivity].
      exfalso. apply Hs. apply isShadow_spec. exact E.
  - reflexivity.
  - intro Hlow. unfold heuristicIsOccupied.
    assert (E : isShadow r = true) by (apply isShadow_spec; exact Hlow).
    rewrite E. reflexivity.
Qed.

Lemma C1_heuristic_decision_witness :
  r_shadowScore Example.shadowed < 0.45 /\
  0.5 < occupancyScore Example.shadowed /\
  heuristicIsOccupied Example.shadowed = false.
Proof.
  split; [reflexivity | split; [reflexivity |]].
  apply (C1_heuristic_decision Example.shadowed). reflexivity.
Defined.

(** ** C2: the range of the confidence *)

(** When the detector reports vehicles, the merged confidence is the best
    score times the boost, with no cap. *)
Lemma mergeVerdict_detected_confidence
  (space : ParkingSpace) (predictions : list Prediction)
  (feats : list Classification) (p : Prediction) (ps : list Prediction) :
  filter isVehiclePrediction predictions = p :: ps ->
  confidence (mergeVerdict space predictions feats)
  = score (bestPredictionOf p ps) * CONFIG.CONFIDENCE_BOOST.
Proof.
  intro E. unfold mergeVerdict. rewrite E. reflexivity.
Qed.

(** C2.  On the first call over the gray frame, with the detector reporting
    a car at score 0.9 for the slot, [detectParkingSpaces] returns one space,
    occupied, of vehicle type "car", whose confidence is 0.9 * 1.2 = 1.08:
    the boost is not capped and the confidence leaves [0,1]. *)
Theorem C2_boosted_confidence_exceeds_one :
  exists s : ParkingSpace,
    Example.spacesOf Example.carCall = [s] /\
    Example.pathOf Example.carCall = Some Processed /\
    isOccupied s = true /\
    vehicleType s = Some "car"%string /\
    confidence s == 0.9 * 1.2 /\
    confidence s == 1.08 /\
    ~ confidence s <= 1.
Proof.
  eexists. split; [vm_compute; reflexivity |].
  repeat split; try reflexivity.
  intro H. apply Qle_bool_iff in H. vm_compute in H. discriminate.
Qed.

(** ** The shape of a processed call *)

Lemma nth_error_mapRegions
  (f : nat -> Region -> Region -> ParkingSpace * list OracleCall) :
  forall (vs ss : list Region) (k i : nat) (v s : Region),
    nth_error vs i = Some v ->
    nth_error ss i = Some s ->
    nth_error (mapRegions f k vs ss) i = Some (f (k + i)%nat v s).
Proof.
  induction vs as [|v0 vs IH]; intros ss k i v s Hv Hs.
  - destruct i; discriminate.
  - destruct ss as [|s0 ss]; [destruct i; discriminate|].
    destruct i as [|i]; simpl in *.
    + inversion Hv; inversion Hs; subst. now rewrite Nat.add_0_r.
    + rewrite (IH ss (S k) i v s Hv Hs). f_equal. f_equal. lia.
Qed.

Lemma in_mapRegions
  (f : nat -> Region -> Region -> ParkingSpace * list OracleCall) :
  forall (vs ss : list Region) (k : nat) (out : ParkingSpace * list OracleCall),
    In out (mapRegions f k vs ss) ->
    exists i v s, In v vs /\ out = f i v s.
Proof.
  induction vs as [|v0 vs IH]; intros ss k out Hin; [contradiction|].
  destruct ss as [|s0 ss]; [contradiction|].
  destruct Hin as [<- | Hin].
  - exists k, v0, s0. split; [now left | reflexivity].
  - destruct (IH ss (S k) out Hin) as (i & v & s & Hv & ->).
    exists i, v, s. split; [now right | reflexivity].
Qed.

Lemma loadModels_settings (g : Globals)
  (fetched : option (ObjectDetection * MobileNet)) :
  settings (fst (loadModels g fetched)) = settings g.
Proof.
  unfold loadModels.
  destruct (objectDetector g), (featureExtractor g); try reflexivity;
    destruct (MAX_MODEL_LOAD_ATTEMPTS <=? modelLoadAttempts g)%Z;
    try reflexivity; destruct fetched as [[d e]|]; reflexivity.
Qed.

Section ProcessedCall.

Variable edgeK textureK : ImageData.t -> Q.

(** A call that returns a result either hands back [previousSpaces] (frame
    skipped, video ended) or has run [processFrame] on the filtered regions,
    under the settings it started with. *)
Lemma detect_cases
  (g : Globals) (clock : Clock) (fetched : option (ObjectDetection * MobileNet))
  (src : Source) (regions : list Region) (prev : list ParkingSpace)
  (g' : Globals) (res : DetectionResult) :
  detectParkingSpaces edgeK textureK g clock fetched src regions prev
  = (g', inr res) ->
  (path res <> Processed /\ spaces res = prev) \/
  exists (g3 : Globals) (modelsLoaded : bool),
    processFrame edgeK textureK g3 modelsLoaded clock src
                 (filter isValidRegion regions) prev = (g', inr res)
    /\ settings g3 = settings g.
Proof.
  unfold detectParkingSpaces. intros H.
  destruct (negb (present src)); [discriminate|].
  destruct (skipsFrame _ _).
  { inversion H; subst. left. split; [discriminate | reflexivity]. }
  destruct (loadModels _ fetched) as [g2 ml] eqn:El.
  assert (Hs : settings g2 = settings g).
  { change g2 with (fst (g2, ml)). rewrite <- El.
    now rewrite loadModels_settings. }
  destruct (negb (contextAvailable src)); [discriminate|].
  destruct (kind src).
  - destruct (negb (loads src)); [discriminate|].
    right. eexists _, ml. split; [exact H | exact Hs].
  - destruct (ended src).
    { inversion H; subst. left. split; [discriminate | reflexivity]. }
    destruct ((originalWidth src =? 0)%Z || (originalHeight src =? 0)%Z);
      [discriminate|].
    right. eexists _, ml. split; [exact H | exact Hs].
  - destruct (negb (loads src) || (originalWidth src =? 0)%Z); [discriminate|].
    right. eexists _, ml. split; [exact H | exact Hs].
Qed.

Lemma detect_processed
  (g : Globals) (clock : Clock) (fetched : option (ObjectDetection * MobileNet))
  (src : Source) (regions : list Region) (prev : list ParkingSpace)
  (g' : Globals) (res : DetectionResult) :
  detectParkingSpaces edgeK textureK g clock fetched src regions prev
  = (g', inr res) ->
  path res = Processed ->
  exists (g3 : Globals) (modelsLoaded : bool),
    processFrame edgeK textureK g3 modelsLoaded clock src
                 (filter isValidRegion regions) prev = (g', inr res)
    /\ settings g3 = settings g.
Proof.
  intros H Hp. destruct (detect_cases _ _ _ _ _ _ _ _ H) as [[Hn _] | Hex].
  - contradiction.
  - exact Hex.
Qed.

(** The result of [processFrame], spelled out. *)
Lemma processFrame_result
  (g : Globals) (modelsLoaded : bool) (clock : Clock) (src : Source)
  (valid : list Region) (prev : list ParkingSpace)
  (g' : Globals) (res : DetectionResult) :
  processFrame edgeK textureK g modelsLoaded clock src valid prev
  = (g', inr res) ->
  let cs := canvasSize (originalWidth src) (originalHeight src) in
  let motionScore :=
    if useMotionDetection (settings g)
    then calculateEnhancedMotionScore (tensor src) (previousFrame g) else 0 in
  let results :=
    mapRegions (processRegion edgeK textureK g modelsLoaded src
                              (fst cs) (snd cs) motionScore prev clock)
               0 valid
               (scaleRegions (fst cs) (snd cs)
                             (originalWidth src) (originalHeight src) valid) in
  spaces res
  = applyEnhancedTemporalSmoothing (settings g) (smoothingTime clock)
                                   (map fst results) prev
  /\ oracleCalls res = map snd results.
Proof.
  unfold processFrame.
  destruct (canvasSize (originalWidth src) (originalHeight src)) as [cw ch].
  destruct (negb (drawable src)); [discriminate|].
  intro H. inversion H; subst. simpl. split; reflexivity.
Qed.

Lemma processRegion_tooSmall
  (g : Globals) (modelsLoaded : bool) (src : Source) (cw ch motion : Q)
  (prev : list ParkingSpace) (clock : Clock) (i : nat) (r sr : Region) :
  tooSmall (getRegionBounds sr) = true ->
  processRegion edgeK textureK g modelsLoaded src cw ch motion prev clock i r sr
  = (createEmptySpace (Z.of_nat i) r (regionTime clock i), []).
Proof.
  intro H. unfold processRegion. rewrite H. destruct r; reflexivity.
Qed.

End ProcessedCall.

(** ** C3: regions below the minimum size *)

(** The stabilizer applied to one position of the list. *)
Lemma nth_error_smoothing (st : Settings) (now : Z)
  (current prev : list ParkingSpace) (i : nat) (s : ParkingSpace) :
  nth_error current i = Some s ->
  nth_error (applyEnhancedTemporalSmoothing st now current prev) i
  = Some (if Nat.eqb (List.length prev) 0 || negb (useTemporalSmoothing st)
          then s else smoothSpace now prev s).
Proof.
  intro H. unfold applyEnhancedTemporalSmoothing.
  destruct (Nat.eqb (List.length prev) 0 || negb (useTemporalSmoothing st)).
  - exact H.
  - now apply map_nth_error.
Qed.

(** C3 (as the code has it).  In a call that processes the frame, a valid
    region whose scaled bounding box is below 20px in width or height gets the
    empty space (not occupied, confidence 0, stability 0.5) and no model call
    is made for it.  The output for the region is that empty space passed to
    the temporal stabilizer like any other: it is returned as it is when
    there is no previous space, smoothing is off, or no previous space carries
    the region's index. *)
Theorem C3_small_region_empty_space :
  forall (edgeK textureK : ImageData.t -> Q)
         (g : Globals) (clock : Clock)
         (fetched : option (ObjectDetection * MobileNet))
         (src : Source) (regions : list Region) (prev : list ParkingSpace)
         (g' : Globals) (res : DetectionResult) (i : nat) (r sr : Region),
    detectParkingSpaces edgeK textureK g clock fetched src regions prev
    = (g', inr res) ->
    path res = Processed ->
    nth_error (filter isValidRegion regions) i = Some r ->
    nth_error
      (scaleRegions (fst (canvasSize (originalWidth src) (originalHeight src)))
                    (snd (canvasSize (originalWidth src) (originalHeight src)))
                    (originalWidth src) (originalHeight src)
                    (filter isValidRegion regions)) i = Some sr ->
    tooSmall (getRegionBounds sr) = true ->
    let empty := createEmptySpace (Z.of_nat i) r (regionTime clock i) in
    isOccupied empty = false /\
    confidence empty = 0 /\
    stabilityScore (features empty) = 0.5 /\
    nth_error (oracleCalls res) i = Some [] /\
    nth_error (spaces res) i
    = Some (if Nat.eqb (List.length prev) 0
               || negb (useTemporalSmoothing (settings g))
            then empty
            else smoothSpace (smoothingTime clock) prev empty) /\
    (find (fun s => (id s =? Z.of_nat i)%Z) prev = None ->
     nth_error (spaces res) i = Some empty).
Proof.
  intros edgeK textureK g clock fetched src regions prev g' res i r sr
         Hcall Hpath Hr Hsr Hsmall empty.
  destruct (detect_processed _ _ _ _ _ _ _ _ _ _ Hcall Hpath)
    as (g3 & ml & Hframe & Hset).
  destruct (processFrame_result _ _ _ _ _ _ _ _ _ _ Hframe) as [Hsp Hor].
  pose proof (nth_error_mapRegions
                (processRegion edgeK textureK g3 ml src
                   (fst (canvasSize (originalWidth src) (originalHeight src)))
                   (snd (canvasSize (originalWidth src) (originalHeight src)))
                   (if useMotionDetection (settings g3)
                    then calculateEnhancedMotionScore (tensor src)
                                                      (previousFrame g3)
                    else 0) prev clock)
                _ _ 0%nat i r sr Hr Hsr) as Hnth.
  rewrite processRegion_tooSmall in Hnth by exact Hsmall.
  simpl in Hnth. fold empty in Hnth.
  assert (Hout : nth_error (spaces res) i
                 = Some (if Nat.eqb (List.length prev) 0
                            || negb (useTemporalSmoothing (settings g))
                         then empty
                         else smoothSpace (smoothingTime clock) prev empty)).
  { rewrite Hsp, <- Hset. apply nth_error_smoothing.
    now apply (map_nth_error fst) in Hnth. }
  repeat split; try reflexivity.
  - rewrite Hor. now apply (map_nth_error snd) in Hnth.
  - exact Hout.
  - intro Hnone. rewrite Hout.
    destruct (Nat.eqb (List.length prev) 0
              || negb (useTemporalSmoothing (settings g))); [reflexivity|].
    unfold smoothSpace. subst empty. simpl. now rewrite Hnone.
Qed.

Lemma C3_small_region_empty_space_witness :
  nth_error (Example.spacesOf Example.tinyFirst) 0
  = Some (createEmptySpace 0 Example.tiny 1000) /\
  match snd Example.tinyFirst with
  | inr res => nth_error (oracleCalls res) 0 = Some []
  | inl _ => False
  end.
Proof.
  destruct (snd Example.tinyFirst) as [e | res] eqn:E; [discriminate E|].
  assert (Hcall : Example.tinyFirst = (fst Example.tinyFirst, inr res)).
  { rewrite <- E. now destruct Example.tinyFirst. }
  assert (Hres : Example.spacesOf Example.tinyFirst = spaces res).
  { unfold Example.spacesOf. now rewrite E. }
  rewrite Hres.
  pose proof (C3_small_region_empty_space
                Example.edgeOfUniform Example.textureOfUniform
                Example.initialGlobals (Example.clockAt 1000) None
                Example.grayVideo [Example.tiny] [] _ res 0%nat
                Example.tiny
                (scaleRegion 1280 720 Example.tiny) Hcall) as H.
  assert (Hp : path res = Processed).
  { assert (Hq : Example.pathOf Example.tinyFirst = Some Processed)
      by reflexivity.
    unfold Example.pathOf in Hq. rewrite E in Hq. now inversion Hq. }
  specialize (H Hp eq_refl eq_refl eq_refl).
  destruct H as (_ & _ & _ & Hcalls & _ & Hout).
  split; [apply Hout; reflexivity | exact Hcalls].
Defined.

(** Second call on the tiny region, fed with the output of the first: the
    region is below the minimum size, yet the stability score of its output
    space is 0.58, not 0.5. *)
Lemma C3_counterexample :
  exists (s : ParkingSpace) (sr : Region),
    Example.pathOf Example.tinySecond = Some Processed /\
    nth_error (filter isValidRegion [Example.tiny]) 0 = Some Example.tiny /\
    nth_error (scaleRegions (fst (canvasSize 1280 720))
                            (snd (canvasSize 1280 720))
                            1280 720 [Example.tiny]) 0 = Some sr /\
    tooSmall (getRegionBounds sr) = true /\
    nth_error (Example.spacesOf Example.tinySecond) 0 = Some s /\
    stabilityScore (features s) == 0.58 /\
    ~ stabilityScore (features s) == 0.5.
Proof.
  eexists. eexists.
  split; [lazy; reflexivity |].
  split; [reflexivity |].
  split; [lazy; reflexivity |].
  split; [reflexivity |].
  split; [lazy; reflexivity |].
  split; [reflexivity | intro H; discriminate H].
Qed.

(** ** C4 and C10: the verification gate *)

Lemma filter_nil_existsb {A : Type} (f : A -> bool) (l : list A) :
  filter f l = [] -> existsb f l = false.
Proof.
  induction l as [|a l IH]; simpl; [reflexivity|].
  destruct (f a); [discriminate | exact IH].
Qed.

Lemma filter_cons_existsb {A : Type} (f : A -> bool) (l : list A)
  (p : A) (ps : list A) :
  filter f l = p :: ps -> existsb f l = true.
Proof.
  intro E. apply existsb_exists. exists p.
  apply filter_In. rewrite E. now left.
Qed.





(** C4.  Whenever verification fails (a model is not loaded, the crop of
    the region is smaller than 10x10, or a model call throws),
    [verifyWithModel] returns the space it was given, unchanged. *)
Theorem C4_failed_verification_returns_input :
  forall (objectDetector : option ObjectDetection)
         (featureExtractor : option MobileNet)
         (space : ParkingSpace) (imageTensor : Tensor3D),
    Spec.verificationFails objectDetector featureExtractor space imageTensor ->
    fst (verifyWithModel objectDetector featureExtractor space imageTensor)
    = space.
Proof.
  intros od fe space t Hfail. unfold verifyWithModel.
  destruct od as [d|]; [|reflexivity].
  destruct fe as [e|]; [|reflexivity].
  destruct ((cropHeight (cropOf space t) <? 10)%Z
            || (cropWidth (cropOf space t) <? 10)%Z) eqn:Esmall;
    [reflexivity|].
  apply orb_false_iff in Esmall. destruct Esmall as [Eh Ew].
  apply Z.ltb_ge in Eh. apply Z.ltb_ge in Ew.
  destruct Hfail as [H | [H | [H | [H | [H | H]]]]];
    try discriminate; try lia.
  - destruct H as (d' & Hd & Hnone). inversion Hd; subst d'.
    rewrite Hnone. reflexivity.
  - destruct H as (e' & He & Hnone). inversion He; subst e'.
    rewrite Hnone. destruct (d t (cropOf space t)); reflexivity.
Qed.

Lemma C4_failed_verification_returns_input_witness :
  fst (verifyWithModel (Some Example.throwingDetector)
                       (Some Example.silentClassifier)
                       Example.flooredSpace Example.grayTensor)
  = Example.flooredSpace
  /\
  fst (verifyWithModel (Some Example.carDetector)
                       (Some Example.silentClassifier)
                       Example.tinySpace Example.grayTensor)
  = Example.tinySpace.
Proof.
  split.
  - apply C4_failed_verification_returns_input.
    right; right; right; right; left.
    exists Example.throwingDetector. split; reflexivity.
  - apply C4_failed_verification_returns_input.
    right; right; left. reflexivity.
Defined.



(** ** C5: the region attached to an output space *)

Lemma verifyWithModel_region
  (od : option ObjectDetection) (fe : option MobileNet)
  (space : ParkingSpace) (t : Tensor3D) :
  region (fst (verifyWithModel od fe space t)) = region space.
Proof.
  unfold verifyWithModel.
  destruct od as [d|]; [|reflexivity].
  destruct fe as [e|]; [|reflexivity].
  destruct ((cropHeight (cropOf space t) <? 10)%Z
            || (cropWidth (cropOf space t) <? 10)%Z); [reflexivity|].
  destruct (d t (cropOf space t)) as [predictions|]; [|reflexivity].
  destruct (e t (cropOf space t)) as [feats|]; [|reflexivity].
  simpl. unfold mergeVerdict.
  destruct (filter isVehiclePrediction predictions); [|reflexivity].
  destruct feats; [reflexivity|].
  destruct (existsb isVehicleFeature _); reflexivity.
Qed.

(** The space built for a region carries the region as it was given: its
    points are neither rescaled nor normalized. *)
Lemma processRegion_region (edgeK textureK : ImageData.t -> Q)
  (g : Globals) (modelsLoaded : bool) (src : Source) (cw ch motion : Q)
  (prev : list ParkingSpace) (clock : Clock) (i : nat) (r sr : Region) :
  region (fst (processRegion edgeK textureK g modelsLoaded src cw ch motion
                             prev clock i r sr)) = r.
Proof.
  unfold processRegion.
  destruct (tooSmall (getRegionBounds sr)); [destruct r; reflexivity|].
  destruct (getImageData src _ _ _ _) as [img|]; [|destruct r; reflexivity].
  destruct (shouldVerify _ _ _ _ _).
  - rewrite verifyWithModel_region. destruct r; reflexivity.
  - destruct r; reflexivity.
Qed.

(** C5.  The slot drawn in pixel coordinates of a 1280x720 frame comes back
    with the very same pixel coordinates attached to its output space: the
    output region is not in normalized [0,1] coordinates. *)
Theorem C5_pixel_region_returned_in_pixels :
  exists s : ParkingSpace,
    Example.spacesOf Example.pixelCall = [s] /\
    Example.pathOf Example.pixelCall = Some Processed /\
    isValidRegion Example.pixelSlot = true /\
    region s = Example.pixelSlot /\
    pointsNormalized (region s) = false.
Proof.
  eexists. split; [vm_compute; reflexivity |].
  repeat split.
Qed.

(** ** C6: the rolling history is bounded *)

Lemma historyBound_is_5 : Spec.historyBound = 5%nat.
Proof. reflexivity. Qed.

(** The eviction rule in terms of the length of the previous history. *)
Lemma pushHistory_cases (h : list bool) (b : bool) :
  pushHistory h b
  = if (4 <=? List.length h)%nat then tl (h ++ [b]) else h ++ [b].
Proof.
  unfold pushHistory.
  assert (Hlen : List.length (h ++ [b]) = S (List.length h)).
  { rewrite length_app. simpl. lia. }
  rewrite Hlen.
  destruct (JS.gt (inject_Z (Z.of_nat (S (List.length h))))
                  (CONFIG.MIN_CONSECUTIVE_FRAMES * 1.5)) eqn:E.
  - apply gt_true_iff in E. unfold Qlt in E. simpl in E.
    destruct (Nat.leb_spec 4 (List.length h)); [reflexivity | lia].
  - apply gt_false_iff in E. unfold Qle in E. simpl in E.
    destruct (Nat.leb_spec 4 (List.length h)); [lia | reflexivity].
Qed.

Lemma pushHistory_bounded (h : list bool) (b : bool) :
  (List.length h <= Spec.historyBound)%nat ->
  (List.length (pushHistory h b) <= Spec.historyBound)%nat.
Proof.
  rewrite historyBound_is_5, pushHistory_cases. intro H.
  destruct (Nat.leb_spec 4 (List.length h)).
  - destruct h as [|a h]; simpl in *; [lia|].
    rewrite length_app. simpl. lia.
  - rewrite length_app. simpl. lia.
Qed.

Lemma verifyWithModel_stateHistory
  (od : option ObjectDetection) (fe : option MobileNet)
  (space : ParkingSpace) (t : Tensor3D) :
  stateHistory (fst (verifyWithModel od fe space t)) = stateHistory space.
Proof.
  unfold verifyWithModel.
  destruct od as [d|]; [|reflexivity].
  destruct fe as [e|]; [|reflexivity].
  destruct ((cropHeight (cropOf space t) <? 10)%Z
            || (cropWidth (cropOf space t) <? 10)%Z); [reflexivity|].
  destruct (d t (cropOf space t)) as [predictions|]; [|reflexivity].
  destruct (e t (cropOf space t)) as [feats|]; [|reflexivity].
  simpl. unfold mergeVerdict.
  destruct (filter isVehiclePrediction predictions); [|reflexivity].
  destruct feats; [reflexivity|].
  destruct (existsb isVehicleFeature _); reflexivity.
Qed.

Section HistoryInvariant.

Variable edgeK textureK : ImageData.t -> Q.
Variable prev : list ParkingSpace.
Hypothesis prev_bounded : Forall Spec.historyBounded prev.

Lemma found_bounded (f : ParkingSpace -> bool) (p : ParkingSpace) :
  find f prev = Some p -> Spec.historyBounded p.
Proof.
  intro H. apply find_some in H. destruct H as [Hin _].
  rewrite Forall_forall in prev_bounded. now apply prev_bounded.
Qed.

Lemma processRegion_bounded
  (g : Globals) (modelsLoaded : bool) (src : Source) (cw ch motion : Q)
  (clock : Clock) (i : nat) (r sr : Region) :
  Spec.historyBounded
    (fst (processRegion edgeK textureK g modelsLoaded src cw ch motion
                        prev clock i r sr)).
Proof.
  unfold Spec.historyBounded, processRegion.
  destruct (tooSmall (getRegionBounds sr)); [simpl; lia|].
  destruct (getImageData src _ _ _ _) as [img|]; [|simpl; lia].
  assert (Hh : (List.length
                  (match find (fun s => (id s =? Z.of_nat i)%Z) prev with
                   | Some p => stateHistory p
                   | None => []
                   end) <= Spec.historyBound)%nat).
  { destruct (find _ prev) as [p|] eqn:Ef; [|simpl; lia].
    exact (found_bounded _ _ Ef). }
  destruct (shouldVerify _ _ _ _ _).
  - rewrite verifyWithModel_stateHistory. exact Hh.
  - exact Hh.
Qed.

Lemma smoothSpace_bounded (now : Z) (s : ParkingSpace) :
  Spec.historyBounded s -> Spec.historyBounded (smoothSpace now prev s).
Proof.
  intro Hs. unfold smoothSpace.
  destruct (find _ prev) as [p|] eqn:Ef; [|exact Hs].
  unfold Spec.historyBounded, smoothWith. simpl.
  apply pushHistory_bounded. exact (found_bounded _ _ Ef).
Qed.

Lemma smoothing_bounded (st : Settings) (now : Z) (current : list ParkingSpace) :
  Forall Spec.historyBounded current ->
  Forall Spec.historyBounded
         (applyEnhancedTemporalSmoothing st now current prev).
Proof.
  intro Hc. unfold applyEnhancedTemporalSmoothing.
  destruct (Nat.eqb (List.length prev) 0 || negb (useTemporalSmoothing st));
    [exact Hc|].
  apply Forall_map. eapply Forall_impl; [|exact Hc].
  intros s Hs. now apply smoothSpace_bounded.
Qed.

Lemma detect_bounded
  (g : Globals) (clock : Clock) (fetched : option (ObjectDetection * MobileNet))
  (src : Source) (regions : list Region)
  (g' : Globals) (res : DetectionResult) :
  detectParkingSpaces edgeK textureK g clock fetched src regions prev
  = (g', inr res) ->
  Forall Spec.historyBounded (spaces res).
Proof.
  intro H. destruct (detect_cases _ _ _ _ _ _ _ _ _ _ H)
    as [[_ Hprev] | (g3 & ml & Hframe & _)].
  - rewrite Hprev. exact prev_bounded.
  - destruct (processFrame_result _ _ _ _ _ _ _ _ _ _ Hframe) as [Hsp _].
    rewrite Hsp. apply smoothing_bounded.
    apply Forall_map. apply Forall_forall. intros out Hin.
    apply in_mapRegions in Hin. destruct Hin as (i & v & s & _ & ->).
    apply processRegion_bounded.
Qed.

End HistoryInvariant.

Lemma runDetection_bounded (edgeK textureK : ImageData.t -> Q) :
  forall (calls : list CallInput) (g : Globals) (prev : list ParkingSpace),
    Forall Spec.historyBounded prev ->
    Forall Spec.historyBounded (runDetection edgeK textureK g prev calls).
Proof.
  induction calls as [|c rest IH]; intros g prev Hprev; simpl; [exact Hprev|].
  destruct (detectParkingSpaces edgeK textureK g (callClock c) (callFetched c)
                                (callSource c) (callRegions c) prev)
    as [g' [e | res]] eqn:E.
  - now apply IH.
  - apply IH. exact (detect_bounded edgeK textureK prev Hprev _ _ _ _ _ _ _ E).
Qed.

(** C6.  The rolling history never exceeds ceil(3 * 1.5) = 5 entries after a
    detection call.  Every call fed with previous spaces within the bound
    returns spaces within the bound, so every run of calls that threads the
    returned spaces, starting from none, stays within it; the stabilizer
    stores [pushHistory] of the previous history, which drops the oldest
    entry as soon as the appended history reaches the bound. *)
Theorem C6_state_history_bounded :
  Spec.historyBound = 5%nat /\
  (forall (edgeK textureK : ImageData.t -> Q)
          (g : Globals) (clock : Clock)
          (fetched : option (ObjectDetection * MobileNet))
          (src : Source) (regions : list Region) (prev : list ParkingSpace)
          (g' : Globals) (res : DetectionResult),
      Forall (fun s => (List.length (stateHistory s) <= 5)%nat) prev ->
      detectParkingSpaces edgeK textureK g clock fetched src regions prev
      = (g', inr res) ->
      Forall (fun s => (List.length (stateHistory s) <= 5)%nat) (spaces res)) /\
  (forall (edgeK textureK : ImageData.t -> Q)
          (g : Globals) (calls : list CallInput),
      Forall (fun s => (List.length (stateHistory s) <= 5)%nat)
             (runDetection edgeK textureK g [] calls)) /\
  (forall now space previousSpace,
      stateHistory (smoothWith now space previousSpace)
      = pushHistory (stateHistory previousSpace) (isOccupied space)) /\
  (forall (old : bool) (h : list bool) (b : bool),
      (5 <= List.length ((old :: h) ++ [b]))%nat ->
      pushHistory (old :: h) b = h ++ [b]) /\
  (forall (h : list bool) (b : bool),
      (List.length (h ++ [b]) < 5)%nat -> pushHistory h b = h ++ [b]).
Proof.
  split; [reflexivity|]. split; [|split; [|split; [|split]]].
  - intros edgeK textureK g clock fetched src regions prev g' res Hprev Hcall.
    exact (detect_bounded edgeK textureK prev Hprev _ _ _ _ _ _ _ Hcall).
  - intros edgeK textureK g calls.
    apply (runDetection_bounded edgeK textureK calls g []). constructor.
  - reflexivity.
  - intros old h b Hlen. rewrite pushHistory_cases.
    rewrite length_app in Hlen. simpl in Hlen.
    destruct (Nat.leb_spec 4 (List.length (old :: h))); simpl in *;
      [reflexivity | lia].
  - intros h b Hlen. rewrite pushHistory_cases.
    rewrite length_app in Hlen. simpl in Hlen.
    destruct (Nat.leb_spec 4 (List.length h)); [lia | reflexivity].
Qed.

Lemma C6_state_history_bounded_witness :
  Forall (fun s => (List.length (stateHistory s) <= 5)%nat)
         (Example.spacesOf Example.tinySecond) /\
  pushHistory [true; true; true; true] false = [true; true; true; false].
Proof.
  destruct C6_state_history_bounded as (_ & Hstep & _ & _ & Hevict & _).
  split.
  - destruct (snd Example.tinySecond) as [e | res] eqn:E; [discriminate E|].
    assert (Hres : Example.spacesOf Example.tinySecond = spaces res).
    { unfold Example.spacesOf. now rewrite E. }
    rewrite Hres.
    apply (Hstep Example.edgeOfUniform Example.textureOfUniform
                 (fst Example.tinyFirst) (Example.clockAt 1100) None
                 Example.grayVideo [Example.tiny]
                 (Example.spacesOf Example.tinyFirst)
                 (fst Example.tinySecond) res).
    + lazy. repeat constructor.
    + rewrite <- E. change (Example.tinySecond
                            = (fst Example.tinySecond, snd Example.tinySecond)).
      now destruct Example.tinySecond.
  - apply (Hevict true [true; true; true] false). simpl. lia.
Defined.

(** ** C7: the stability score across the stabilizer *)




(** ** C8: the frame-skip test *)

(** With [MAX_FRAME_SKIP = 0] the remainder is NaN, [NaN !== 0] holds, and
    the test reduces to its first two conjuncts. *)
Lemma skipsFrame_zero_skip (timeDiff frameCount : Z) :
  skipsFrame timeDiff frameCount
  = JS.lt (inject_Z timeDiff) (1000 / 30) && (0 <? frameCount)%Z.
Proof.
  unfold skipsFrame. change (JS.rem frameCount CONFIG.MAX_FRAME_SKIP) with (@None Z).
  simpl. now rewrite andb_true_r.
Qed.

(** C8.  [MAX_FRAME_SKIP] is 0, and the skip test does trigger: 10 ms after
    a first call the same frame, regions and (empty) previous spaces are
    answered by the early return, which hands back the empty previous spaces
    where the first call had returned one space. *)
Theorem C8_zero_skip_still_skips :
  CONFIG.MAX_FRAME_SKIP = 0%Z /\
  JS.strict_neq_0 (JS.rem 1 CONFIG.MAX_FRAME_SKIP) = true /\
  skipsFrame 10 1 = true /\
  Example.pathOf Example.repeatFirst = Some Processed /\
  List.length (Example.spacesOf Example.repeatFirst) = 1%nat /\
  Example.pathOf Example.repeatSecond = Some Skipped /\
  Example.spacesOf Example.repeatSecond = [].
Proof.
  repeat split; vm_compute; reflexivity.
Qed.

(** ** C9: the motion estimator *)

Lemma countTrue_changed :
  forall cs ps : list (Q * Q * Q),
    countTrue (map (fun d => JS.gt d 0.05)
                   (absDiff (map rgbToGrayscale cs) (map rgbToGrayscale ps)))
    = Z.of_nat (List.length (filter Spec.pixelChanged (combine cs ps))).
Proof.
  induction cs as [|c cs IH]; intros ps; [reflexivity|].
  destruct ps as [|p ps]; [reflexivity|].
  unfold absDiff in *.
  cbn [map combine countTrue fold_right filter fst snd].
  change (fold_right (fun (b : bool) (acc : Z) => ((if b then 1 else 0) + acc)%Z)
                     0%Z ?l) with (countTrue l).
  rewrite IH.
  change (JS.gt (JS.abs (rgbToGrayscale c - rgbToGrayscale p)) 0.05)
    with (Spec.pixelChanged (c, p)).
  destruct (Spec.pixelChanged (c, p)).
  - cbn [List.length]. lia.
  - lia.
Qed.


Lemma fraction_in_unit (n m : Z) :
  (0 <= n <= m)%Z -> (0 < m)%Z ->
  0 <= inject_Z n / inject_Z m /\ inject_Z n / inject_Z m <= 1.
Proof.
  intros [Hn Hnm] Hm.
  assert (Hmq : 0 < inject_Z m) by (change 0 with (inject_Z 0); now rewrite <- Zlt_Qlt).
  split.
  - apply Qle_shift_div_l; [exact Hmq|].
    rewrite Qmult_0_l. change 0 with (inject_Z 0). now rewrite <- Zle_Qle.
  - apply Qle_shift_div_r; [exact Hmq|].
    rewrite Qmult_1_l. now rewrite <- Zle_Qle.
Qed.



(** * Further properties of the detection module *)

(** ** Region geometry *)

Lemma min_cases (a b : Q) : JS.min a b = a \/ JS.min a b = b.
Proof.
  unfold JS.min, Qmin, GenericMinMax.gmin. destruct (a ?= b); auto.
Qed.

Lemma max_cases (a b : Q) : JS.max a b = a \/ JS.max a b = b.
Proof.
  unfold JS.max, Qmax, GenericMinMax.gmax. destruct (a ?= b); auto.
Qed.

Lemma fold_min_lower (l : list Q) :
  forall a : Q,
    fold_left JS.min l a <= a /\
    (forall b, In b l -> fold_left JS.min l a <= b) /\
    (fold_left JS.min l a = a \/ In (fold_left JS.min l a) l).
Proof.
  induction l as [|c l IH]; intro a; cbn [fold_left In].
  - split; [apply Qle_refl | split; [contradiction | now left]].
  - destruct (IH (JS.min a c)) as (H1 & H2 & H3).
    pose proof (min_le_l a c) as Ha. pose proof (min_le_r a c) as Hc.
    split; [exact (Qle_trans _ _ _ H1 Ha)|]. split.
    + intros b [<- | Hb]; [exact (Qle_trans _ _ _ H1 Hc) | now apply H2].
    + destruct H3 as [H3 | H3]; [|now right; right].
      destruct (min_cases a c) as [E | E].
      * left. now rewrite H3.
      * right; left. now rewrite H3.
Qed.

Lemma fold_max_upper (l : list Q) :
  forall a : Q,
    a <= fold_left JS.max l a /\
    (forall b, In b l -> b <= fold_left JS.max l a) /\
    (fold_left JS.max l a = a \/ In (fold_left JS.max l a) l).
Proof.
  induction l as [|c l IH]; intro a; cbn [fold_left In].
  - split; [apply Qle_refl | split; [contradiction | now left]].
  - destruct (IH (JS.max a c)) as (H1 & H2 & H3).
    pose proof (max_ge_l a c) as Ha.
    assert (Hc : c <= JS.max a c) by apply Q.le_max_r.
    split; [exact (Qle_trans _ _ _ Ha H1)|]. split.
    + intros b [<- | Hb]; [exact (Qle_trans _ _ _ Hc H1) | now apply H2].
    + destruct H3 as [H3 | H3]; [|now right; right].
      destruct (max_cases a c) as [E | E].
      * left. now rewrite H3.
      * right; left. now rewrite H3.
Qed.

Lemma minList_le (l : list Q) (b : Q) : In b l -> JS.minList l <= b.
Proof.
  destruct l as [|a l]; [contradiction|]. cbn [JS.minList JS.maxList In].
  destruct (fold_min_lower l a) as (H1 & H2 & _).
  intros [<- | Hb]; [exact H1 | now apply H2].
Qed.

Lemma minList_in (l : list Q) : l <> [] -> In (JS.minList l) l.
Proof.
  destruct l as [|a l]; [congruence|]. intros _. cbn [JS.minList JS.maxList In].
  destruct (fold_min_lower l a) as (_ & _ & [H | H]); [left; now symmetry | now right].
Qed.

Lemma maxList_ge (l : list Q) (b : Q) : In b l -> b <= JS.maxList l.
Proof.
  destruct l as [|a l]; [contradiction|]. cbn [JS.minList JS.maxList In].
  destruct (fold_max_upper l a) as (H1 & H2 & _).
  intros [<- | Hb]; [exact H1 | now apply H2].
Qed.

Lemma maxList_in (l : list Q) : l <> [] -> In (JS.maxList l) l.
Proof.
  destruct l as [|a l]; [congruence|]. intros _. cbn [JS.minList JS.maxList In].
  destruct (fold_max_upper l a) as (_ & _ & [H | H]); [left; now symmetry | now right].
Qed.

(** X1.  The bounding box [getRegionBounds] computes encloses every point of
    the region, and its width and height are never negative. *)
Theorem getRegionBounds_encloses :
  forall (r : Region) (p : Point),
    In p (points r) ->
    let b := getRegionBounds r in
    minX b <= x p /\ x p <= maxX b /\
    minY b <= y p /\ y p <= maxY b /\
    0 <= width b /\ 0 <= height b.
Proof.
  intros r p Hp b. subst b. unfold getRegionBounds. simpl.
  assert (Hx : In (x p) (map x (points r))) by now apply in_map.
  assert (Hy : In (y p) (map y (points r))) by now apply in_map.
  pose proof (minList_le _ _ Hx). pose proof (maxList_ge _ _ Hx).
  pose proof (minList_le _ _ Hy). pose proof (maxList_ge _ _ Hy).
  repeat split; lra.
Qed.

Lemma minList_scale (l : list Q) (s : Q) :
  0 <= s -> JS.minList (map (fun v => v * s) l) == JS.minList l * s.
Proof.
  intro Hs. destruct l as [|a t]; [simpl; lra|].
  set (l0 := a :: t). assert (Hne : l0 <> []) by discriminate.
  apply Qle_antisym.
  - apply minList_le. apply (in_map (fun v => v * s)). now apply minList_in.
  - assert (Hin : In (JS.minList (map (fun v => v * s) l0))
                     (map (fun v => v * s) l0)).
    { apply minList_in. discriminate. }
    apply in_map_iff in Hin. destruct Hin as (v & <- & Hv).
    apply Qmult_le_compat_r; [now apply minList_le | exact Hs].
Qed.

Lemma maxList_scale (l : list Q) (s : Q) :
  0 <= s -> JS.maxList (map (fun v => v * s) l) == JS.maxList l * s.
Proof.
  intro Hs. destruct l as [|a t]; [simpl; lra|].
  set (l0 := a :: t). assert (Hne : l0 <> []) by discriminate.
  apply Qle_antisym.
  - assert (Hin : In (JS.maxList (map (fun v => v * s) l0))
                     (map (fun v => v * s) l0)).
    { apply maxList_in. discriminate. }
    apply in_map_iff in Hin. destruct Hin as (v & <- & Hv).
    apply Qmult_le_compat_r; [now apply maxList_ge | exact Hs].
  - apply maxList_ge. apply (in_map (fun v => v * s)). now apply maxList_in.
Qed.

(** X2.  Scaling the points of a non-empty region by non-negative factors,
    as [detectParkingSpaces] does to reach canvas coordinates, scales its
    bounding box by the same factors: bounds of the scaled region are the
    scaled bounds, in both coordinates and in width and height. *)
Theorem getRegionBounds_scaleRegion :
  forall (sx sy : Q) (r : Region),
    points r <> [] ->
    0 <= sx -> 0 <= sy ->
    let b := getRegionBounds r in
    let b' := getRegionBounds (scaleRegion sx sy r) in
    minX b' == minX b * sx /\ maxX b' == maxX b * sx /\
    minY b' == minY b * sy /\ maxY b' == maxY b * sy /\
    width b' == width b * sx /\ height b' == height b * sy.
Proof.
  intros sx sy r _ Hx Hy b b'. subst b b'.
  unfold getRegionBounds, scaleRegion. simpl.
  rewrite !map_map. simpl.
  rewrite <- (map_map x (fun v => v * sx)), <- (map_map y (fun v => v * sy)).
  pose proof (minList_scale (map x (points r)) sx Hx) as A1.
  pose proof (maxList_scale (map x (points r)) sx Hx) as A2.
  pose proof (minList_scale (map y (points r)) sy Hy) as A3.
  pose proof (maxList_scale (map y (points r)) sy Hy) as A4.
  repeat split; try assumption.
  - rewrite A1, A2. ring.
  - rewrite A3, A4. ring.
Qed.





(** Induction over an RGBA buffer, one pixel at a time. *)
Lemma rgba_ind (P : list Z -> Prop) :
  (forall d, (List.length d < 4)%nat -> P d) ->
  (forall r g b a rest, P rest -> P (r :: g :: b :: a :: rest)) ->
  forall d, P d.
Proof.
  intros Hshort Hstep d.
  remember (List.length d) as n eqn:Hn.
  revert d Hn. induction n as [n IH] using lt_wf_ind. intros d Hn.
  destruct d as [|r [|g [|b [|a rest]]]];
    try (apply Hshort; simpl; lia).
  apply Hstep. apply (IH (List.length rest)); [subst; simpl; lia | reflexivity].
Qed.

Lemma pixelsOf_short (d : list Z) : (List.length d < 4)%nat -> Wf.pixelsOf d = [].
Proof.
  destruct d as [|r [|g [|b [|a rest]]]]; simpl; try reflexivity; lia.
Qed.

Lemma pixelsOf_length (d : list Z) (n : Z) :
  Z.of_nat (List.length d) = (4 * n)%Z ->
  Z.of_nat (List.length (Wf.pixelsOf d)) = n.
Proof.
  revert n. induction d as [d Hd | r g b a rest IH] using rgba_ind; intros n H.
  - rewrite pixelsOf_short by exact Hd. simpl. lia.
  - cbn [Wf.pixelsOf List.length] in *.
    assert (Hr : Z.of_nat (List.length rest) = (4 * (n - 1))%Z) by lia.
    specialize (IH _ Hr). lia.
Qed.

Lemma pixelsOf_bytes (d : list Z) :
  Forall Wf.isByte d ->
  Forall (fun p => Wf.isByte (fst (fst p)) /\ Wf.isByte (snd (fst p))
                   /\ Wf.isByte (snd p)) (Wf.pixelsOf d).
Proof.
  induction d as [d Hd | r g b a rest IH] using rgba_ind; intro H.
  - rewrite pixelsOf_short by exact Hd. constructor.
  - inversion H as [|? ? Hr H1]; subst. inversion H1 as [|? ? Hg H2]; subst.
    inversion H2 as [|? ? Hb H3]; subst. inversion H3 as [|? ? _ H4]; subst.
    simpl. constructor; [simpl; auto | now apply IH].
Qed.

Lemma count_bounds (d : list Z) :
  (0 <= countNonZeroPixelsData d <= Z.of_nat (List.length (Wf.pixelsOf d)))%Z.
Proof.
  induction d as [d Hd | r g b a rest IH] using rgba_ind.
  - rewrite pixelsOf_short by exact Hd.
    destruct d as [|r [|g [|b [|a rest]]]]; simpl in *; lia.
  - cbn [countNonZeroPixelsData Wf.pixelsOf List.length].
    destruct ((25 <? r)%Z || (25 <? g)%Z || (25 <? b)%Z); lia.
Qed.

Lemma inject_Z_pos (n : Z) : (0 < n)%Z -> 0 < inject_Z n.
Proof. intro H. change 0 with (inject_Z 0). now rewrite <- Zlt_Qlt. Qed.

Lemma inject_Z_nonneg (n : Z) : (0 <= n)%Z -> 0 <= inject_Z n.
Proof. intro H. change 0 with (inject_Z 0). now rewrite <- Zle_Qle. Qed.

Lemma pixelCount_pos (img : ImageData.t) :
  Wf.image img ->
  0 < inject_Z (ImageData.width img) * inject_Z (ImageData.height img).
Proof.
  intros (Hw & Hh & _). apply Qmult_lt_0_compat; now apply inject_Z_pos.
Qed.

Lemma image_pixels (img : ImageData.t) :
  Wf.image img ->
  inject_Z (Z.of_nat (List.length (Wf.pixelsOf (ImageData.data img))))
  == inject_Z (ImageData.width img) * inject_Z (ImageData.height img).
Proof.
  intros (_ & _ & Hlen & _). rewrite (pixelsOf_length _ _ Hlen).
  rewrite inject_Z_mult. reflexivity.
Qed.

(** X4.  On a well-formed image [countNonZeroPixels] lies between 0 and the
    number of pixels, so the coverage ratio the classifier reads
    (count / (width * height)) lies in [0,1]. *)
Theorem coverage_in_unit_interval :
  forall img : ImageData.t,
    Wf.image img ->
    (0 <= countNonZeroPixels img
     <= ImageData.width img * ImageData.height img)%Z /\
    Wf.inUnit (inject_Z (countNonZeroPixels img)
               / (inject_Z (ImageData.width img)
                  * inject_Z (ImageData.height img))).
Proof.
  intros img Hwf. pose proof (pixelCount_pos img Hwf) as Hpos.
  destruct Hwf as (Hw & Hh & Hlen & _).
  pose proof (count_bounds (ImageData.data img)) as [H0 H1].
  rewrite (pixelsOf_length _ _ Hlen) in H1.
  split; [split; assumption|]. unfold countNonZeroPixels. split.
  - apply Qle_shift_div_l; [exact Hpos|]. rewrite Qmult_0_l.
    now apply inject_Z_nonneg.
  - apply Qle_shift_div_r; [exact Hpos|]. rewrite Qmult_1_l.
    rewrite <- inject_Z_mult. now rewrite <- Zle_Qle.
Qed.

Lemma byte_Q (v : Z) : Wf.isByte v -> 0 <= inject_Z v /\ inject_Z v <= 255.
Proof.
  intros [H0 H1]. split; [now apply inject_Z_nonneg|].
  change 255 with (inject_Z 255). now rewrite <- Zle_Qle.
Qed.

Lemma brightnessSum_bounds (d : list Z) :
  Forall Wf.isByte d ->
  forall acc : Q,
    acc <= brightnessSum d acc /\
    brightnessSum d acc
    <= acc + 255 * inject_Z (Z.of_nat (List.length (Wf.pixelsOf d))).
Proof.
  induction d as [d Hd | r g b a rest IH] using rgba_ind; intros H acc.
  - rewrite pixelsOf_short by exact Hd.
    destruct d as [|r [|g [|b [|a rest]]]]; simpl in *; try lia;
      change (inject_Z 0) with 0; lra.
  - inversion H as [|? ? Hr H1]; subst. inversion H1 as [|? ? Hg H2]; subst.
    inversion H2 as [|? ? Hb H3]; subst. inversion H3 as [|? ? _ H4]; subst.
    cbn [brightnessSum Wf.pixelsOf List.length].
    pose proof (Qred_correct (acc + (0.299 * inject_Z r + 0.587 * inject_Z g
                                     + 0.114 * inject_Z b))) as Hq.
    destruct (IH H4 (Qred (acc + (0.299 * inject_Z r + 0.587 * inject_Z g
                                  + 0.114 * inject_Z b)))) as [Hlo Hhi].
    rewrite Nat2Z.inj_succ. unfold Z.succ. rewrite inject_Z_plus.
    change (inject_Z 1) with 1.
    destruct (byte_Q r Hr), (byte_Q g Hg), (byte_Q b Hb).
    split; lra.
Qed.

Lemma brightness_unit :
  forall img : ImageData.t,
    Wf.image img -> Wf.inUnit (calculateBrightness img).
Proof.
  intros img Hwf. pose proof (pixelCount_pos img Hwf) as Hpos.
  pose proof (image_pixels img Hwf) as Hn.
  destruct Hwf as (_ & _ & _ & Hb).
  destruct (brightnessSum_bounds _ Hb 0) as [Hlo Hhi].
  rewrite Hn in Hhi. unfold calculateBrightness.
  set (N := inject_Z (ImageData.width img) * inject_Z (ImageData.height img)) in *.
  assert (HN : 0 < N * 255) by lra.
  split.
  - apply Qle_shift_div_l; [exact HN | lra].
  - apply Qle_shift_div_r; [exact HN | lra].
Qed.

(** X5.  On a well-formed image [calculateBrightness] lies in [0,1]. *)
Theorem calculateBrightness_in_unit_interval :
  forall img : ImageData.t,
    Wf.image img -> Wf.inUnit (calculateBrightness img).
Proof. exact brightness_unit. Qed.

(** The six running sums, as sums over the pixels. *)
Lemma colorSums_sums (d : list Z) :
  forall sR sG sB qR qG qB : Z,
    colorSums d (sR, sG, sB, qR, qG, qB)
    = (sR + fold_right Z.add 0 (map (fun p => fst (fst p)) (Wf.pixelsOf d)),
       sG + fold_right Z.add 0 (map (fun p => snd (fst p)) (Wf.pixelsOf d)),
       sB + fold_right Z.add 0 (map (fun p => snd p) (Wf.pixelsOf d)),
       qR + fold_right Z.add 0
              (map (fun p => fst (fst p) * fst (fst p)) (Wf.pixelsOf d)),
       qG + fold_right Z.add 0
              (map (fun p => snd (fst p) * snd (fst p)) (Wf.pixelsOf d)),
       qB + fold_right Z.add 0
              (map (fun p => snd p * snd p) (Wf.pixelsOf d)))%Z.
Proof.
  induction d as [d Hd | r g b a rest IH] using rgba_ind; intros.
  - rewrite pixelsOf_short by exact Hd.
    destruct d as [|r [|g [|b [|a rest]]]]; simpl in *; try lia;
      rewrite !Z.add_0_r; reflexivity.
  - cbn [colorSums Wf.pixelsOf map fold_right fst snd]. rewrite IH.
    repeat (f_equal; try lia).
Qed.

(** Cauchy-Schwarz for a list of integers against the constant list. *)
Lemma sum_square_le (f : Z * Z * Z -> Z) (l : list (Z * Z * Z)) :
  let n := Z.of_nat (List.length l) in
  let S := fold_right Z.add 0%Z (map f l) in
  let Q2 := fold_right Z.add 0%Z (map (fun p => f p * f p)%Z l) in
  (S * S <= n * Q2)%Z /\ (forall t : Z, 0 <= Q2 - 2 * t * S + n * t * t)%Z.
Proof.
  induction l as [|p l IH]; cbn [List.length map fold_right].
  - split; [lia | intro t; lia].
  - destruct IH as [IH1 IH2]. rewrite Nat2Z.inj_succ.
    set (n := Z.of_nat (List.length l)) in *.
    set (S := fold_right Z.add 0%Z (map f l)) in *.
    set (Q2 := fold_right Z.add 0%Z (map (fun p => f p * f p)%Z l)) in *.
    split.
    + pose proof (IH2 (f p)). nia.
    + intro t. pose proof (IH2 t). pose proof (Z.square_nonneg (f p - t)). nia.
Qed.

Lemma sum_square_upper (f : Z * Z * Z -> Z) (l : list (Z * Z * Z)) :
  Forall (fun p => Wf.isByte (f p)) l ->
  (0 <= fold_right Z.add 0 (map (fun p => f p * f p) l)
   <= 65025 * Z.of_nat (List.length l))%Z.
Proof.
  induction 1 as [|p l [H0 H1] _ IH]; cbn [List.length map fold_right].
  - lia.
  - rewrite Nat2Z.inj_succ. nia.
Qed.

(** One channel's population variance, from its two sums. *)
Lemma variance_bounds (S Q2 n : Z) (N : Q) :
  (0 < n)%Z -> N == inject_Z n ->
  (S * S <= n * Q2)%Z -> (Q2 <= 65025 * n)%Z ->
  0 <= (inject_Z Q2 - (inject_Z S * inject_Z S) / N) / N /\
  (inject_Z Q2 - (inject_Z S * inject_Z S) / N) / N <= 65025.
Proof.
  intros Hn HN Hcs Hup.
  assert (HNpos : 0 < N) by (rewrite HN; now apply inject_Z_pos).
  assert (Hcs' : inject_Z S * inject_Z S <= N * inject_Z Q2).
  { rewrite HN, <- !inject_Z_mult. now rewrite <- Zle_Qle. }
  assert (Hup' : inject_Z Q2 <= 65025 * N).
  { rewrite HN. change 65025 with (inject_Z 65025).
    rewrite <- inject_Z_mult. now rewrite <- Zle_Qle. }
  assert (Hsq : 0 <= inject_Z S * inject_Z S).
  { rewrite <- inject_Z_mult. apply inject_Z_nonneg. nia. }
  set (X := (inject_Z S * inject_Z S) / N).
  assert (HX0 : 0 <= X).
  { apply Qle_shift_div_l; [exact HNpos | lra]. }
  assert (HX1 : X <= inject_Z Q2).
  { apply Qle_shift_div_r; [exact HNpos | lra]. }
  split.
  - apply Qle_shift_div_l; [exact HNpos | lra].
  - apply Qle_shift_div_r; [exact HNpos | lra].
Qed.

Lemma colorVariance_unit :
  forall img : ImageData.t,
    Wf.image img -> Wf.inUnit (calculateColorVariance img).
Proof.
  intros img Hwf. pose proof (image_pixels img Hwf) as HN.
  destruct Hwf as (Hw & Hh & Hlen & Hb).
  pose proof (pixelsOf_bytes _ Hb) as Hpx.
  pose proof (pixelsOf_length _ _ Hlen) as Hcount.
  unfold calculateColorVariance. rewrite colorSums_sums. rewrite !Z.add_0_l.
  set (px := Wf.pixelsOf (ImageData.data img)) in *.
  set (N := inject_Z (ImageData.width img) * inject_Z (ImageData.height img)) in *.
  assert (Hn : (0 < Z.of_nat (List.length px))%Z) by nia.
  assert (HN' : N == inject_Z (Z.of_nat (List.length px))) by (symmetry; exact HN).
  assert (vR := variance_bounds _ _ _ N Hn HN'
                  (proj1 (sum_square_le (fun p => fst (fst p)) px))).
  assert (vG := variance_bounds _ _ _ N Hn HN'
                  (proj1 (sum_square_le (fun p => snd (fst p)) px))).
  assert (vB := variance_bounds _ _ _ N Hn HN'
                  (proj1 (sum_square_le (fun p => snd p) px))).
  destruct vR as [R0 R1].
  { apply sum_square_upper. eapply Forall_impl; [|exact Hpx]. now intros p (? & ? & ?). }
  destruct vG as [G0 G1].
  { apply sum_square_upper. eapply Forall_impl; [|exact Hpx]. now intros p (? & ? & ?). }
  destruct vB as [B0 B1].
  { apply sum_square_upper. eapply Forall_impl; [|exact Hpx]. now intros p (? & ? & ?). }
  split.
  - apply Qle_shift_div_l; [reflexivity | lra].
  - apply Qle_shift_div_r; [reflexivity | lra].
Qed.

(** X6.  On a well-formed image [calculateColorVariance] lies in [0,1]. *)
Theorem calculateColorVariance_in_unit_interval :
  forall img : ImageData.t,
    Wf.image img -> Wf.inUnit (calculateColorVariance img).
Proof. exact colorVariance_unit. Qed.

(** X7.  On a well-formed image the dynamic threshold lies between 0.25 and
    1.5: half to one and a half times the base threshold 0.5, times a
    colour factor between 1 and 2. *)
Theorem calculateDynamicThreshold_range :
  forall img : ImageData.t,
    Wf.image img ->
    0.25 <= calculateDynamicThreshold img /\
    calculateDynamicThreshold img <= 1.5.
Proof.
  intros img Hwf.
  destruct (brightness_unit img Hwf) as [b0 b1].
  destruct (colorVariance_unit img Hwf) as [c0 c1].
  unfold calculateDynamicThreshold.
  unfold CONFIG.OCCUPANCY_THRESHOLD.
  set (b := calculateBrightness img) in *.
  set (c := calculateColorVariance img) in *.
  split; nra.
Qed.

Lemma inverted_score_unit (v c : Q) :
  0 <= v -> 0 < c -> 0 <= JS.max 0 (1 - v / c) /\ JS.max 0 (1 - v / c) <= 1.
Proof.
  intros Hv Hc.
  assert (H : 0 <= v / c) by (apply Qle_shift_div_l; lra).
  split; [apply max_ge_l|]. unfold JS.max. apply Q.max_lub; lra.
Qed.

(** X8.  On a well-formed image, and whatever non-negative values the edge
    and texture kernels return, [calculateEnhancedShadowScore] lies in
    [0,1]. *)
Theorem calculateEnhancedShadowScore_in_unit_interval :
  forall (edgeK textureK : ImageData.t -> Q) (img : ImageData.t),
    Wf.image img -> 0 <= edgeK img -> 0 <= textureK img ->
    Wf.inUnit (calculateEnhancedShadowScore edgeK textureK img).
Proof.
  intros edgeK textureK img Hwf He Ht.
  destruct (brightness_unit img Hwf) as [b0 _].
  destruct (colorVariance_unit img Hwf) as [c0 _].
  unfold calculateEnhancedShadowScore.
  destruct (inverted_score_unit (edgeK img)
              (CONFIG.EDGE_DENSITY_THRESHOLD * 1.5) He) as [e0 e1];
    [reflexivity|].
  destruct (inverted_score_unit (textureK img)
              (CONFIG.TEXTURE_COMPLEXITY_THRESHOLD * 1.5) Ht) as [t0 t1];
    [reflexivity|].
  destruct (inverted_score_unit (calculateColorVariance img)
              (CONFIG.COLOR_VARIANCE_THRESHOLD * 1.5) c0) as [v0 v1];
    [reflexivity|].
  destruct (inverted_score_unit (calculateBrightness img) 0.5 b0) as [l0 l1];
    [reflexivity|].
  split; lra.
Qed.

(** X9.  With a coverage ratio in [0,1] and a non-negative motion score, the
    weighted occupancy score lies in [0,1] and the heuristic confidence
    between 0.21 and 1; a dynamic threshold of 1 or more therefore never
    lets the heuristic report a space as occupied. *)
Theorem heuristic_score_and_confidence_ranges :
  forall r : Readings,
    Wf.inUnit (r_normalizedCount r) ->
    0 <= r_motionScore r ->
    Wf.inUnit (occupancyScore r) /\
    0.21 <= heuristicConfidence r /\ heuristicConfidence r <= 1 /\
    (1 <= r_dynamicThreshold r -> heuristicIsOccupied r = false).
Proof.
  intros r [n0 n1] Hm.
  assert (Hs : Wf.inUnit (occupancyScore r)).
  { unfold occupancyScore.
    destruct (JS.gt (r_textureComplexity r) _), (JS.gt (r_edgeDensity r) _),
             (JS.gt (r_colorVariance r) _), (JS.gt (r_motionScore r) _);
      split; lra. }
  split; [exact Hs|]. split; [|split].
  - unfold heuristicConfidence.
    set (base := if negb (isShadow r)
                 then JS.max 0.5 (1 - JS.abs (occupancyScore r - r_dynamicThreshold r))
                 else 0.3).
    assert (Hb : 0.3 <= base).
    { unfold base. destruct (negb (isShadow r)); [|lra].
      pose proof (max_ge_l 0.5 (1 - JS.abs (occupancyScore r - r_dynamicThreshold r))).
      lra. }
    pose proof (max_ge_l 0.7 (r_stabilityScore r)) as Hst.
    set (st := JS.max 0.7 (r_stabilityScore r)) in *.
    unfold JS.min. apply Q.min_glb; [lra|].
    assert (0.3 <= base * (1 + 0.2 * r_motionScore r)) by nra.
    nra.
  - unfold heuristicConfidence. apply min_le_l.
  - intro Hth. unfold heuristicIsOccupied.
    assert (E : JS.gt (occupancyScore r) (r_dynamicThreshold r) = false).
    { apply gt_false_iff. destruct Hs. lra. }
    rewrite E. apply andb_false_r.
Qed.

(** X10.  The stability score carried over from the previous frame
    ([previousSpace?.features.stabilityScore || 0.5]) is never 0: it is 0.5
    without a previous space and when the previous score is 0, and the
    previous score otherwise. *)
Theorem carriedStability_never_zero :
  forall previousSpace : option ParkingSpace,
    ~ carriedStability previousSpace == 0 /\
    (previousSpace = None -> carriedStability previousSpace = 0.5) /\
    (forall p, previousSpace = Some p ->
               (stabilityScore (features p) == 0 ->
                carriedStability previousSpace = 0.5) /\
               (~ stabilityScore (features p) == 0 ->
                carriedStability previousSpace = stabilityScore (features p))).
Proof.
  intro previousSpace. split; [|split].
  - destruct previousSpace as [p|]; simpl; [|discriminate].
    unfold JS.or_default.
    destruct (Qeq_bool (stabilityScore (features p)) 0) eqn:E; [discriminate|].
    intro H. apply Qeq_bool_iff in H. congruence.
  - intros ->. reflexivity.
  - intros p ->. simpl. unfold JS.or_default. split; intro H.
    + apply Qeq_bool_iff in H. now rewrite H.
    + destruct (Qeq_bool (stabilityScore (features p)) 0) eqn:E; [|reflexivity].
      apply Qeq_bool_iff in E. contradiction.
Qed.

(** ** The image kernels *)

Lemma in_range (from below k : Z) :
  In k (range from below) <-> (from <= k < below)%Z.
Proof.
  unfold range. rewrite in_map_iff. split.
  - intros (n & <- & Hn). apply in_seq in Hn. lia.
  - intros H. exists (Z.to_nat (k - from)). split; [lia|].
    apply in_seq. lia.
Qed.

Lemma range_length (from below : Z) :
  List.length (range from below) = Z.to_nat (below - from).
Proof. unfold range. now rewrite length_map, length_seq. Qed.

Lemma in_interior (img : ImageData.t) (y x : Z) :
  In (y, x) (interior img) <->
  (1 <= y < ImageData.height img - 1)%Z /\ (1 <= x < ImageData.width img - 1)%Z.
Proof.
  unfold interior. rewrite in_flat_map. split.
  - intros (y' & Hy & Hx). apply in_map_iff in Hx.
    destruct Hx as (x' & E & Hx). inversion E; subst.
    apply in_range in Hy. apply in_range in Hx. lia.
  - intros [Hy Hx]. exists y. split; [now apply in_range|].
    apply in_map_iff. exists x. split; [reflexivity | now apply in_range].
Qed.

Lemma interior_length (img : ImageData.t) :
  (3 <= ImageData.width img)%Z -> (3 <= ImageData.height img)%Z ->
  Z.of_nat (List.length (interior img))
  = ((ImageData.width img - 2) * (ImageData.height img - 2))%Z.
Proof.
  intros Hw Hh. unfold interior.
  assert (E : forall l : list Z,
             List.length
               (flat_map (fun y => map (fun x => (y, x))
                                       (range 1 (ImageData.width img - 1))) l)
             = (List.length l * Z.to_nat (ImageData.width img - 2))%nat).
  { induction l as [|a l IH]; [reflexivity|].
    cbn [flat_map]. rewrite length_app, IH, length_map, range_length.
    replace (ImageData.width img - 1 - 1)%Z with (ImageData.width img - 2)%Z by lia.
    simpl. lia. }
  rewrite E, range_length. nia.
Qed.

Lemma textureCounts_fold (data : list Z) (width : Z) (l : list (Z * Z)) :
  forall (complexity total : Z) (out : Z * Z),
    (0 <= complexity <= total)%Z ->
    fold_left
      (fun (ct : Z * Z) (yx : Z * Z) =>
         let '(complexity, total) := ct in
         let pattern := lbpPattern data width (fst yx) (snd yx) in
         ((if (lbpTransitions pattern <=? 2)%Z
           then complexity + 1 else complexity),
          total + 1)%Z) l (complexity, total) = out ->
    (0 <= fst out <= snd out)%Z /\
    snd out = (total + Z.of_nat (List.length l))%Z /\
    ((forall yx, In yx l ->
                 (lbpTransitions (lbpPattern data width (fst yx) (snd yx)) <=? 2)%Z
                 = true) ->
     fst out = (complexity + Z.of_nat (List.length l))%Z).
Proof.
  induction l as [|yx l IH]; intros c t out Hct; cbn [fold_left List.length].
  - intros <-. cbn [fst snd]. split; [lia | split; [lia | intros _; lia]].
  - destruct (lbpTransitions (lbpPattern data width (fst yx) (snd yx)) <=? 2)%Z
      eqn:E; intro Hout.
    + destruct (IH (c + 1)%Z (t + 1)%Z out ltac:(lia) Hout) as (H1 & H2 & H3).
      split; [exact H1|]. split; [lia|]. intro Hall.
      rewrite H3; [lia|]. intros yx' Hin. apply Hall. now right.
    + destruct (IH c (t + 1)%Z out ltac:(lia) Hout) as (H1 & H2 & H3).
      split; [exact H1|]. split; [lia|]. intro Hall.
      specialize (Hall yx (or_introl eq_refl)). congruence.
Qed.

Lemma fold_left_fixed {A B : Type} (f : A -> B -> A) (l : list B) (a : A) :
  (forall i, In i l -> f a i = a) -> fold_left f l a = a.
Proof.
  induction l as [|i l IH]; intro H; [reflexivity|].
  cbn [fold_left]. rewrite (H i (or_introl eq_refl)).
  apply IH. intros j Hj. apply H. now right.
Qed.

Lemma flat_grayAt (img : ImageData.t) (r g b k : Z) :
  Wf.flat img r g b ->
  (0 <= k < ImageData.width img * ImageData.height img)%Z ->
  grayAt (ImageData.data img) (k * 4)
  = (inject_Z r + inject_Z g + inject_Z b) / 3.
Proof.
  intros Hflat Hk. destruct (Hflat k Hk) as (Hr & Hg & Hb).
  unfold grayAt. replace (k * 4)%Z with (4 * k)%Z by lia.
  now rewrite Hr, Hg, Hb.
Qed.

Lemma neighbour_in_image (w h y x dy dx : Z) :
  (1 <= y < h - 1)%Z -> (1 <= x < w - 1)%Z ->
  (-1 <= dy <= 1)%Z -> (-1 <= dx <= 1)%Z ->
  (0 <= (y + dy) * w + (x + dx) < w * h)%Z.
Proof. intros. nia. Qed.

Lemma neighbors_near (n : nat) :
  (-1 <= fst (nth n neighbors (0, 0)%Z) <= 1)%Z /\
  (-1 <= snd (nth n neighbors (0, 0)%Z) <= 1)%Z.
Proof.
  do 8 (destruct n as [|n]; [simpl; lia|]). destruct n; simpl; lia.
Qed.

Lemma flat_lbpPattern (img : ImageData.t) (r g b y x : Z) :
  Wf.flat img r g b -> In (y, x) (interior img) ->
  lbpPattern (ImageData.data img) (ImageData.width img) y x = 0%Z.
Proof.
  intros Hflat Hin. apply in_interior in Hin. destruct Hin as [Hy Hx].
  unfold lbpPattern. apply fold_left_fixed. intros i Hi.
  apply in_range in Hi.
  assert (Hc : grayAt (ImageData.data img) ((y * ImageData.width img + x) * 4)
               = (inject_Z r + inject_Z g + inject_Z b) / 3).
  { apply (flat_grayAt img r g b _ Hflat).
    pose proof (neighbour_in_image (ImageData.width img) (ImageData.height img)
                  y x 0 0 Hy Hx ltac:(lia) ltac:(lia)) as H.
    now rewrite !Z.add_0_r in H. }
  rewrite Hc.
  assert (Hn : forall dy dx : Z,
             (-1 <= dy <= 1)%Z -> (-1 <= dx <= 1)%Z ->
             JS.gt (grayAt (ImageData.data img)
                           (((y + dy) * ImageData.width img + (x + dx)) * 4))
                   ((inject_Z r + inject_Z g + inject_Z b) / 3) = false).
  { intros dy dx Hdy Hdx.
    rewrite (flat_grayAt img r g b _ Hflat)
      by (apply neighbour_in_image; assumption).
    apply gt_false_iff. apply Qle_refl. }
  destruct (nth (Z.to_nat i) neighbors (0, 0)%Z) as [dy dx] eqn:En.
  pose proof (neighbors_near (Z.to_nat i)) as Hnear. rewrite En in Hnear.
  cbn [fst snd] in Hnear. rewrite Hn by lia. reflexivity.
Qed.

(** X11.  On an image of at least 3x3 pixels [calculateTextureComplexity]
    lies in [0,1], and it is 1 when every pixel has the same colour. *)
Theorem calculateTextureComplexity_range_and_flat :
  forall img : ImageData.t,
    (3 <= ImageData.width img)%Z -> (3 <= ImageData.height img)%Z ->
    Wf.inUnit (calculateTextureComplexity img) /\
    (forall r g b, Wf.flat img r g b -> calculateTextureComplexity img == 1).
Proof.
  intros img Hw Hh. unfold calculateTextureComplexity, textureCounts.
  destruct (fold_left _ (interior img) (0, 0)%Z) as [complexity total] eqn:Eout.
  destruct (textureCounts_fold (ImageData.data img) (ImageData.width img)
              (interior img) 0 0 _ ltac:(lia) Eout) as (Hc & Ht & Hall).
  cbn [fst snd] in *.
  rewrite (interior_length img Hw Hh) in Ht, Hall.
  assert (Hpos : (0 < total)%Z) by nia.
  split.
  - apply fraction_in_unit; lia.
  - intros r g b Hflat.
    rewrite Hall.
    + rewrite Ht. apply Qmult_inv_r. intro E.
      assert (Hq : 0 < inject_Z (0 + (ImageData.width img - 2)
                                      * (ImageData.height img - 2)))
        by (apply inject_Z_pos; nia).
      rewrite E in Hq. discriminate.
    + intros [y x] Hin. cbn [fst snd].
      now rewrite (flat_lbpPattern img r g b y x Hflat Hin).
Qed.

Section EdgeProperties.

Variable sqrt : Q -> Q.

Lemma strong_edges_row_nonneg (row : list Q) :
  forall s : Q,
    0 <= s ->
    0 <= fold_left (fun (s' v : Q) => if JS.gt v 25 then s' + v else s') row s.
Proof.
  induction row as [|v row IH]; intros s Hs; cbn [fold_left]; [exact Hs|].
  apply IH. destruct (JS.gt v 25) eqn:E; [|exact Hs].
  apply gt_true_iff in E. lra.
Qed.

Lemma strong_edges_nonneg (rows : list (list Q)) :
  forall s : Q,
    0 <= s ->
    0 <= fold_left (fun (s : Q) (row : list Q) =>
                      fold_left (fun (s' v : Q) =>
                                   if JS.gt v 25 then s' + v else s') row s)
                   rows s.
Proof.
  induction rows as [|row rows IH]; intros s Hs; cbn [fold_left]; [exact Hs|].
  apply IH. now apply strong_edges_row_nonneg.
Qed.

Lemma calculateEnhancedEdgeDensity_nonneg :
  forall img : ImageData.t,
    (0 < ImageData.width img)%Z -> (0 < ImageData.height img)%Z ->
    0 <= calculateEnhancedEdgeDensity sqrt img.
Proof.
  intros img Hw Hh. unfold calculateEnhancedEdgeDensity.
  apply Qle_shift_div_l.
  - assert (0 < inject_Z (ImageData.width img)) by now apply inject_Z_pos.
    assert (0 < inject_Z (ImageData.height img)) by now apply inject_Z_pos.
    assert (0 < inject_Z (ImageData.width img) * inject_Z (ImageData.height img))
      by now apply Qmult_lt_0_compat.
    lra.
  - rewrite Qmult_0_l. apply strong_edges_nonneg. lra.
Qed.

Hypothesis sqrt_proper : forall a b : Q, a == b -> sqrt a == sqrt b.
Hypothesis sqrt_0 : sqrt 0 == 0.

Lemma fold_left_ext_in {A B : Type} (f g : A -> B -> A) (l : list B) :
  (forall a i, In i l -> f a i = g a i) ->
  forall a, fold_left f l a = fold_left g l a.
Proof.
  induction l as [|i l IH]; intros H a; [reflexivity|].
  cbn [fold_left]. rewrite (H a i (or_introl eq_refl)).
  apply IH. intros a' j Hj. apply H. now right.
Qed.

Lemma flat_sobelGradients (img : ImageData.t) (r g b y x : Z) :
  Wf.flat img r g b ->
  (1 <= y < ImageData.height img - 1)%Z ->
  (1 <= x < ImageData.width img - 1)%Z ->
  let gxy := sobelGradients (ImageData.data img) (ImageData.width img) y x in
  fst gxy * fst gxy + snd gxy * snd gxy == 0.
Proof.
  intros Hflat Hy Hx. unfold sobelGradients.
  set (c := (inject_Z r + inject_Z g + inject_Z b) / 3).
  rewrite (fold_left_ext_in _
             (fun (gr : Q * Q) (ij : Z * Z) =>
                let '(i, j) := ij in
                (fst gr + c * kernelAt sobelX (i + 1) (j + 1),
                 snd gr + c * kernelAt sobelY (i + 1) (j + 1)))).
  - vm_compute (flat_map _ _). cbn [fold_left fst snd].
    vm_compute (kernelAt _ _ _). cbv zeta. cbn [fst snd].
    repeat match goal with
           | |- context [kernelAt ?k ?i ?j] =>
               let v := eval vm_compute in (kernelAt k i j) in
               change (kernelAt k i j) with v
           end.
    ring.
  - intros gr [i j] Hin. apply in_flat_map in Hin.
    destruct Hin as (i' & Hi & Hj). apply in_map_iff in Hj.
    destruct Hj as (j' & E & Hj). inversion E; subst.
    apply in_range in Hi. apply in_range in Hj.
    rewrite (flat_grayAt img r g b _ Hflat)
      by (apply neighbour_in_image; lia).
    reflexivity.
Qed.

Lemma flat_edgeAt (img : ImageData.t) (r g b y x : Z) :
  Wf.flat img r g b -> edgeAt sqrt img y x == 0.
Proof.
  intro Hflat. unfold edgeAt.
  destruct ((1 <=? y)%Z && (y <? ImageData.height img - 1)%Z
            && (1 <=? x)%Z && (x <? ImageData.width img - 1)%Z) eqn:E;
    [|reflexivity].
  apply andb_true_iff in E. destruct E as [E Hx2].
  apply andb_true_iff in E. destruct E as [E Hx1].
  apply andb_true_iff in E. destruct E as [Hy1 Hy2].
  apply Z.leb_le in Hy1, Hx1. apply Z.ltb_lt in Hy2, Hx2.
  pose proof (flat_sobelGradients img r g b y x Hflat
                ltac:(lia) ltac:(lia)) as H.
  cbv zeta in H.
  destruct (sobelGradients (ImageData.data img) (ImageData.width img) y x)
    as [gx gy].
  cbn [fst snd] in H. rewrite (sqrt_proper _ _ H). exact sqrt_0.
Qed.

Lemma zero_row_sum (row : list Q) :
  Forall (fun v => v == 0) row ->
  forall s : Q,
    fold_left (fun (s' v : Q) => s' + v) row s == s /\
    fold_left (fun (s' v : Q) => if JS.gt v 25 then s' + v else s') row s = s.
Proof.
  induction 1 as [|v row Hv _ IH]; intro s; cbn [fold_left].
  - split; reflexivity.
  - assert (E : JS.gt v 25 = false) by (apply gt_false_iff; rewrite Hv; discriminate).
    rewrite E. destruct (IH (s + v)) as [H1 _]. destruct (IH s) as [_ H2].
    split; [rewrite H1, Hv; ring | exact H2].
Qed.

Lemma zero_rows_sum (rows : list (list Q)) :
  Forall (Forall (fun v => v == 0)) rows ->
  forall s : Q,
    fold_left (fun (s : Q) (row : list Q) =>
                 fold_left (fun (s' v : Q) => s' + v) row s) rows s == s /\
    fold_left (fun (s : Q) (row : list Q) =>
                 fold_left (fun (s' v : Q) =>
                              if JS.gt v 25 then s' + v else s') row s)
              rows s = s.
Proof.
  induction 1 as [|row rows Hrow _ IH]; intro s; cbn [fold_left].
  - split; reflexivity.
  - destruct (zero_row_sum row Hrow s) as [H1 H2]. rewrite H2.
    destruct (IH s) as [_ H4]. split; [|exact H4].
    destruct (IH (fold_left (fun s' v : Q => s' + v) row s)) as [H3 _].
    rewrite H3. exact H1.
Qed.

Lemma flat_image_has_no_edges :
  forall (img : ImageData.t) (r g b : Z),
    Wf.flat img r g b ->
    Forall (Forall (fun v => v == 0)) (detectEdges sqrt img) /\
    calculateEdgeDensity sqrt img == 0 /\
    calculateEnhancedEdgeDensity sqrt img == 0.
Proof.
  intros img r g b Hflat.
  assert (Hz : Forall (Forall (fun v => v == 0)) (detectEdges sqrt img)).
  { unfold detectEdges. apply Forall_map. apply Forall_forall. intros y _.
    apply Forall_map. apply Forall_forall. intros x _.
    now apply (flat_edgeAt img r g b). }
  split; [exact Hz|].
  destruct (zero_rows_sum _ Hz 0) as [H1 H2].
  unfold calculateEdgeDensity, calculateEnhancedEdgeDensity.
  rewrite H1, H2. split; unfold Qdiv; ring.
Qed.

End EdgeProperties.

(** X12.  Whatever [Math.sqrt] returns, the edge density of
    [calculateEnhancedEdgeFeatures] is never negative on an image of positive
    dimensions; and for a square root that respects equality and maps 0 to
    0, an image of one colour has no edges: every entry of [detectEdges] is
    0, and so are both edge densities. *)
Theorem edge_density_nonneg_and_zero_when_flat :
  forall sqrt : Q -> Q,
    (forall img : ImageData.t,
        (0 < ImageData.width img)%Z -> (0 < ImageData.height img)%Z ->
        0 <= calculateEnhancedEdgeDensity sqrt img) /\
    ((forall a b : Q, a == b -> sqrt a == sqrt b) ->
     sqrt 0 == 0 ->
     forall (img : ImageData.t) (r g b : Z),
       (0 < ImageData.width img)%Z -> (0 < ImageData.height img)%Z ->
       Wf.flat img r g b ->
       Forall (Forall (fun v => v == 0)) (detectEdges sqrt img) /\
       calculateEdgeDensity sqrt img == 0 /\
       calculateEnhancedEdgeDensity sqrt img == 0).
Proof.
  intro sqrt. split.
  - apply calculateEnhancedEdgeDensity_nonneg.
  - intros Hp H0 img r g b _ _. now apply flat_image_has_no_edges.
Qed.

(** ** String helpers *)

Lemma prefix_iff (sub s : string) :
  String.prefix sub s = true <-> exists post, s = (sub ++ post)%string.
Proof.
  revert s. induction sub as [|c sub IH]; intro s.
  - split; [intros _; now exists s | intros _; destruct s; reflexivity].
  - destruct s as [|d s]; simpl.
    + split; [discriminate | intros (post & E); discriminate].
    + destruct (ascii_dec c d) as [<- | Hne].
      * rewrite IH. split; intros (post & E); exists post.
        -- now rewrite E.
        -- now inversion E.
      * split; [discriminate|]. intros (post & E). inversion E. congruence.
Qed.

(** X14 *)
Lemma includes_iff_substring :
  forall s sub : string,
    JS.includes s sub = true <->
    exists pre post : string, s = (pre ++ sub ++ post)%string.
Proof.
  induction s as [|c s IH]; intro sub; cbn [JS.includes].
  - rewrite orb_false_r, prefix_iff. split.
    + intros (post & E). now exists EmptyString, post.
    + intros (pre & post & E). destruct pre as [|d pre]; [|discriminate].
      now exists post.
  - rewrite orb_true_iff, prefix_iff, IH. split.
    + intros [(post & E) | (pre & post & E)].
      * now exists EmptyString, post.
      * exists (String c pre), post. simpl. now rewrite E.
    + intros (pre & post & E). destruct pre as [|d pre].
      * left. now exists post.
      * right. simpl in E. inversion E. now exists pre, post.
Qed.

Lemma lowerAscii_idempotent (c : ascii) :
  JS.lowerAscii (JS.lowerAscii c) = JS.lowerAscii c.
Proof.
  destruct c as [[] [] [] [] [] [] [] []]; reflexivity.
Qed.

(** X15 *)
Lemma toLowerCase_idempotent_and_length :
  forall s : string,
    JS.toLowerCase (JS.toLowerCase s) = JS.toLowerCase s /\
    String.length (JS.toLowerCase s) = String.length s.
Proof.
  induction s as [|c s [IH1 IH2]]; [split; reflexivity|].
  cbn [JS.toLowerCase String.length].
  now rewrite lowerAscii_idempotent, IH1, IH2.
Qed.

(** X16 *)
Lemma beforeComma_splits :
  forall s : string,
    JS.includes (JS.beforeComma s) "," = false /\
    ((JS.includes s "," = false /\ JS.beforeComma s = s) \/
     exists rest : string, s = (JS.beforeComma s ++ "," ++ rest)%string).
Proof.
  induction s as [|c s [IH1 IH2]]; [split; [reflexivity | left; split; reflexivity]|].
  cbn [JS.beforeComma].
  destruct (Ascii.eqb c ",") eqn:E.
  - apply Ascii.eqb_eq in E. subst c. split; [reflexivity|].
    right. now exists s.
  - assert (Hp : forall t, String.prefix "," (String c t) = false).
    { intro t. destruct (String.prefix "," (String c t)) eqn:P; [|reflexivity].
      apply prefix_iff in P. destruct P as (post & EP). inversion EP; subst c.
      rewrite Ascii.eqb_refl in E. discriminate. }
    split.
    + cbn [JS.includes]. now rewrite Hp, IH1.
    + destruct IH2 as [[Hno Hsame] | (rest & Hrest)].
      * left. cbn [JS.includes]. rewrite Hp, Hno, Hsame. split; reflexivity.
      * right. exists rest. cbn [String.append]. f_equal. exact Hrest.
Qed.

(** ** More on the verification gate *)

Lemma isVehiclePrediction_spec :
  forall p : Prediction,
    isVehiclePrediction p = true <->
    0.6 < score p /\
    exists vc pre post : string,
      In vc vehicleClasses /\
      JS.toLowerCase (class p) = (pre ++ vc ++ post)%string.
Proof.
  intro p. unfold isVehiclePrediction.
  rewrite andb_true_iff, gt_true_iff, existsb_exists.
  change CONFIG.MIN_VEHICLE_CONFIDENCE with 0.60.
  split.
  - intros [(vc & Hin & Hinc) Hs]. split; [lra|].
    apply includes_iff_substring in Hinc. destruct Hinc as (pre & post & E).
    now exists vc, pre, post.
  - intros [Hs (vc & pre & post & Hin & E)]. split; [|lra].
    exists vc. split; [exact Hin|].
    apply includes_iff_substring. now exists pre, post.
Qed.


Lemma best_prediction (t : list Prediction) :
  forall h : Prediction,
    In (bestPredictionOf h t) (h :: t) /\
    forall q, In q (h :: t) -> score q <= score (bestPredictionOf h t).
Proof.
  unfold bestPredictionOf.
  induction t as [|c t IH]; intro h; cbn [fold_left].
  - split; [now left|]. intros q [<- | []]. apply Qle_refl.
  - destruct (JS.gt (score c) (score h)) eqn:E.
    + apply gt_true_iff in E. destruct (IH c) as [Hin Hmax].
      split; [right; exact Hin|].
      intros q [<- | Hq]; [|now apply Hmax].
      apply Qle_trans with (score c); [lra | apply Hmax; now left].
    + apply gt_false_iff in E. destruct (IH h) as [Hin Hmax].
      split; [destruct Hin as [<- | Hin]; [now left | right; now right]|].
      intros q [<- | [<- | Hq]].
      * apply Hmax. now left.
      * apply Qle_trans with (score h); [exact E | apply Hmax; now left].
      * apply Hmax. now right.
Qed.

Lemma best_feature (t : list Classification) :
  forall h : Classification,
    In (bestFeatureOf h t) (h :: t) /\
    forall q, In q (h :: t) -> probability q <= probability (bestFeatureOf h t).
Proof.
  unfold bestFeatureOf.
  induction t as [|c t IH]; intro h; cbn [fold_left].
  - split; [now left|]. intros q [<- | []]. apply Qle_refl.
  - destruct (JS.gt (probability c) (probability h)) eqn:E.
    + apply gt_true_iff in E. destruct (IH c) as [Hin Hmax].
      split; [right; exact Hin|].
      intros q [<- | Hq]; [|now apply Hmax].
      apply Qle_trans with (probability c); [lra | apply Hmax; now left].
    + apply gt_false_iff in E. destruct (IH h) as [Hin Hmax].
      split; [destruct Hin as [<- | Hin]; [now left | right; now right]|].
      intros q [<- | [<- | Hq]].
      * apply Hmax. now left.
      * apply Qle_trans with (probability h); [exact E | apply Hmax; now left].
      * apply Hmax. now right.
Qed.

(** X14.  When the detector returns at least one vehicle box, the verified
    space is occupied, its vehicle type is the class of a vehicle box of
    maximal score, its confidence is that score times 1.2 (hence above
    0.72) and its heatmap score is 1. *)
Theorem mergeVerdict_takes_best_vehicle_box :
  forall (space : ParkingSpace) (predictions : list Prediction)
         (feats : list Classification),
    existsb isVehiclePrediction predictions = true ->
    let out := mergeVerdict space predictions feats in
    exists best : Prediction,
      In best predictions /\ isVehiclePrediction best = true /\
      (forall q, In q predictions -> isVehiclePrediction q = true ->
                 score q <= score best) /\
      isOccupied out = true /\
      vehicleType out = Some (class best) /\
      confidence out = score best * CONFIG.CONFIDENCE_BOOST /\
      0.72 < confidence out /\
      heatmapScore (features out) = 1.
Proof.
  intros space predictions feats Hex out. subst out. unfold mergeVerdict.
  destruct (filter isVehiclePrediction predictions) as [|p ps] eqn:E.
  - rewrite (filter_nil_existsb _ _ E) in Hex. discriminate.
  - destruct (best_prediction ps p) as [Hin Hmax].
    rewrite <- E in Hin. apply filter_In in Hin. destruct Hin as [Hin Hveh].
    exists (bestPredictionOf p ps). cbn.
    split; [exact Hin|]. split; [exact Hveh|]. split.
    + intros q Hq Hv. apply Hmax. rewrite <- E. now apply filter_In.
    + repeat split.
      apply isVehiclePrediction_spec in Hveh. destruct Hveh as [Hs _].
      unfold CONFIG.CONFIDENCE_BOOST. lra.
Qed.

(** X15.  When the detector returns no vehicle box but the classifier a
    vehicle feature, the verified space is occupied, its vehicle type is the
    part before the first comma of the class name of a classification of
    maximal probability (taken over all classifications, vehicle or not),
    and its confidence is that probability times 1.2, hence above 0.6. *)
Theorem mergeVerdict_falls_back_to_classifier :
  forall (space : ParkingSpace) (predictions : list Prediction)
         (feats : list Classification),
    existsb isVehiclePrediction predictions = false ->
    existsb isVehicleFeature feats = true ->
    let out := mergeVerdict space predictions feats in
    exists best : Classification,
      In best feats /\
      (forall q, In q feats -> probability q <= probability best) /\
      isOccupied out = true /\
      vehicleType out = Some (JS.beforeComma (className best)) /\
      JS.includes (JS.beforeComma (className best)) "," = false /\
      confidence out = probability best * CONFIG.CONFIDENCE_BOOST /\
      0.6 < confidence out.
Proof.
  intros space predictions feats Hno Hex out. subst out. unfold mergeVerdict.
  destruct (filter isVehiclePrediction predictions) as [|p ps] eqn:E.
  - destruct feats as [|f fs]; [discriminate|]. rewrite Hex.
    destruct (best_feature fs f) as [Hin Hmax].
    exists (bestFeatureOf f fs). cbn.
    split; [exact Hin|]. split; [exact Hmax|].
    split; [reflexivity|]. split; [reflexivity|].
    split; [apply beforeComma_splits|]. split; [reflexivity|].
    apply existsb_exists in Hex. destruct Hex as (v & Hv & Hveh).
    unfold isVehicleFeature in Hveh. apply andb_true_iff in Hveh.
    destruct Hveh as [_ Hp]. apply gt_true_iff in Hp.
    pose proof (Hmax v Hv). unfold CONFIG.CONFIDENCE_BOOST. lra.
  - rewrite (filter_cons_existsb _ _ _ _ E) in Hno. discriminate.
Qed.

(** X16.  [verifyWithModel] either calls no model or calls the detector and
    the classifier once each on the same crop; when it calls them both
    models are loaded and the crop is at least 10x10 and lies inside the
    frame. *)
Theorem verifyWithModel_calls_in_bounds :
  forall (od : option ObjectDetection) (fe : option MobileNet)
         (space : ParkingSpace) (t : Tensor3D),
    let calls := snd (verifyWithModel od fe space t) in
    let c := cropOf space t in
    (calls = [] \/ calls = [DetectCall c; ClassifyCall c]) /\
    (calls <> [] ->
     od <> None /\ fe <> None /\
     (0 <= cropMinX c)%Z /\ (0 <= cropMinY c)%Z /\
     (10 <= cropWidth c)%Z /\ (10 <= cropHeight c)%Z /\
     (cropMinX c + cropWidth c <= snd (shape t))%Z /\
     (cropMinY c + cropHeight c <= fst (shape t))%Z).
Proof.
  intros od fe space t calls c. subst calls. unfold verifyWithModel.
  destruct od as [d|];
    [|split; [now left | intro H; exfalso; apply H; reflexivity]].
  destruct fe as [e|];
    [|split; [now left | intro H; exfalso; apply H; reflexivity]].
  cbv beta iota zeta. change (cropOf space t) with c.
  destruct ((cropHeight c <? 10)%Z || (cropWidth c <? 10)%Z) eqn:Es;
    [split; [now left | intro H; exfalso; apply H; reflexivity]|].
  assert (Hcalls : snd (match d t c, e t c with
                        | Some predictions, Some feats =>
                            (mergeVerdict space predictions feats,
                             [DetectCall c; ClassifyCall c])
                        | _, _ => (space, [DetectCall c; ClassifyCall c])
                        end) = [DetectCall c; ClassifyCall c]).
  { destruct (d t c), (e t c); reflexivity. }
  rewrite Hcalls. split; [now right|]. intros _.
  apply orb_false_iff in Es. destruct Es as [Eh Ew].
  apply Z.ltb_ge in Eh. apply Z.ltb_ge in Ew.
  split; [discriminate|]. split; [discriminate|].
  subst c. unfold cropOf in *. destruct (shape t) as [h w]. cbn [fst snd].
  cbn [cropMinX cropMinY cropWidth cropHeight] in *. lia.
Qed.

Lemma min1_unit (q : Q) : 0 <= q -> Wf.inUnit (JS.min 1 q).
Proof.
  intro H. split; [unfold JS.min; apply Q.min_glb; lra | apply min_le_l].
Qed.

Lemma max0_unit (q : Q) : q <= 1 -> Wf.inUnit (JS.max 0 q).
Proof.
  intro H. split; [apply max_ge_l | unfold JS.max; apply Q.max_lub; lra].
Qed.

Lemma verifyWithModel_frame :
  forall (od : option ObjectDetection) (fe : option MobileNet)
         (space : ParkingSpace) (t : Tensor3D),
    let out := fst (verifyWithModel od fe space t) in
    id out = id space /\ region out = region space /\
    lastStateChange out = lastStateChange space /\
    stateHistory out = stateHistory space /\
    motionScore (features out) = motionScore (features space) /\
    (Wf.stabilityInUnit space -> Wf.stabilityInUnit out).
Proof.
  intros od fe space t out. subst out. unfold Wf.stabilityInUnit.
  assert (Hfin : forall o : ParkingSpace,
             id o = id space -> region o = region space ->
             lastStateChange o = lastStateChange space ->
             stateHistory o = stateHistory space ->
             motionScore (features o) = motionScore (features space) ->
             (Wf.inUnit (stabilityScore (features space)) ->
              Wf.inUnit (stabilityScore (features o))) ->
             id o = id space /\ region o = region space /\
             lastStateChange o = lastStateChange space /\
             stateHistory o = stateHistory space /\
             motionScore (features o) = motionScore (features space) /\
             (Wf.inUnit (stabilityScore (features space)) ->
              Wf.inUnit (stabilityScore (features o)))) by (intros; tauto).
  unfold verifyWithModel.
  destruct od as [d|]; [|apply Hfin; auto].
  destruct fe as [e|]; [|apply Hfin; auto].
  destruct ((cropHeight (cropOf space t) <? 10)%Z
            || (cropWidth (cropOf space t) <? 10)%Z); [apply Hfin; auto|].
  destruct (d t (cropOf space t)) as [predictions|]; [|apply Hfin; auto].
  destruct (e t (cropOf space t)) as [feats|]; [|apply Hfin; auto].
  cbn [fst]. unfold mergeVerdict.
  destruct (filter isVehiclePrediction predictions).
  - destruct feats as [|f fs].
    + apply Hfin; try reflexivity. cbn. intros [H0 H1]. apply max0_unit; lra.
    + destruct (existsb isVehicleFeature (f :: fs)); apply Hfin;
        try reflexivity; cbn; intros [H0 H1];
        first [apply min1_unit; lra | apply max0_unit; lra].
  - apply Hfin; try reflexivity. cbn. intros [H0 H1]. apply min1_unit; lra.
Qed.

(** X17.  [verifyWithModel] never changes the id, the region, the state
    history, the time of the last state change or the motion score of a
    space, and it keeps a stability score that is in [0,1] inside [0,1]. *)
Theorem verifyWithModel_preserves_identity_and_range :
  forall (od : option ObjectDetection) (fe : option MobileNet)
         (space : ParkingSpace) (t : Tensor3D),
    let out := fst (verifyWithModel od fe space t) in
    id out = id space /\ region out = region space /\
    lastStateChange out = lastStateChange space /\
    stateHistory out = stateHistory space /\
    motionScore (features out) = motionScore (features space) /\
    (Wf.stabilityInUnit space -> Wf.stabilityInUnit out).
Proof. exact verifyWithModel_frame. Qed.

(** ** More on the temporal stabilizer *)

Lemma historyWeights_pos (h : list bool) :
  Forall (fun w => 0 < w) (historyWeights h).
Proof.
  unfold historyWeights. apply Forall_map. apply Forall_forall. intros i _.
  unfold JS.pow. apply Qpower_0_lt. reflexivity.
Qed.

Lemma historyWeights_length (h : list bool) :
  List.length (historyWeights h) = List.length h.
Proof. unfold historyWeights. now rewrite length_map, length_seq. Qed.

Lemma total_weight (ws : list Q) :
  forall a : Q,
    fold_left (fun (sum w : Q) => sum + w) ws a == a + fold_right Qplus 0 ws.
Proof.
  induction ws as [|w ws IH]; intro a; cbn [fold_left fold_right]; [ring|].
  rewrite IH. ring.
Qed.

Lemma weighted_sum (l : list (bool * Q)) :
  forall a : Q,
    fold_left (fun (sum : Q) (vw : bool * Q) =>
                 sum + (if fst vw then snd vw else 0)) l a
    == a + fold_right Qplus 0
             (map (fun vw : bool * Q => if fst vw then snd vw else 0) l).
Proof.
  induction l as [|vw l IH]; intro a; cbn [fold_left fold_right map]; [ring|].
  rewrite IH. ring.
Qed.

Lemma picked_bounds (h : list bool) :
  forall ws : list Q,
    Forall (fun w => 0 < w) ws ->
    0 <= fold_right Qplus 0
           (map (fun vw : bool * Q => if fst vw then snd vw else 0)
                (combine h ws)) /\
    fold_right Qplus 0
      (map (fun vw : bool * Q => if fst vw then snd vw else 0) (combine h ws))
    <= fold_right Qplus 0 ws.
Proof.
  induction h as [|v h IH]; intros ws Hws; cbn [combine map fold_right].
  - split; [lra|]. induction Hws as [|w ws Hw _ IHw]; cbn [fold_right]; lra.
  - destruct Hws as [|w ws Hw Hws]; cbn [combine map fold_right fst snd]; [lra|].
    destruct (IH ws Hws) as [H0 H1]. destruct v; lra.
Qed.

Lemma picked_unanimous (h : list bool) :
  forall ws : list Q,
    List.length ws = List.length h ->
    (forallb (fun v => v) h = true ->
     fold_right Qplus 0
       (map (fun vw : bool * Q => if fst vw then snd vw else 0) (combine h ws))
     == fold_right Qplus 0 ws) /\
    (forallb negb h = true ->
     fold_right Qplus 0
       (map (fun vw : bool * Q => if fst vw then snd vw else 0) (combine h ws))
     == 0).
Proof.
  induction h as [|v h IH]; intros ws Hlen.
  - destruct ws; [|discriminate]. split; reflexivity.
  - destruct ws as [|w ws]; [discriminate|].
    cbn [combine map fold_right fst snd forallb].
    destruct (IH ws ltac:(simpl in Hlen; lia)) as [H1 H0].
    destruct v; cbn [negb andb]; split; intro H; try discriminate.
    + rewrite (H1 H). reflexivity.
    + rewrite (H0 H). ring.
Qed.

Lemma total_weight_pos (ws : list Q) :
  ws <> [] -> Forall (fun w => 0 < w) ws -> 0 < fold_right Qplus 0 ws.
Proof.
  intros Hne Hws. destruct Hws as [|w ws Hw Hws]; [congruence|].
  cbn [fold_right].
  assert (0 <= fold_right Qplus 0 ws).
  { clear Hne. induction Hws as [|w' ws' Hw' _ IH]; cbn [fold_right]; lra. }
  lra.
Qed.

Lemma weightedAverage_unit :
  forall stateHistory : list bool,
    stateHistory <> [] ->
    Wf.inUnit (weightedAverageOf stateHistory) /\
    (forallb (fun v => v) stateHistory = true ->
     weightedAverageOf stateHistory == 1) /\
    (forallb negb stateHistory = true ->
     weightedAverageOf stateHistory == 0).
Proof.
  intros h Hne. unfold weightedAverageOf, Wf.inUnit. cbv zeta.
  pose proof (weighted_sum (combine h (historyWeights h)) 0) as ES.
  pose proof (total_weight (historyWeights h) 0) as ET.
  rewrite Qplus_0_l in ES, ET. rewrite ES, ET. clear ES ET.
  pose proof (historyWeights_pos h) as Hpos.
  destruct (picked_bounds h _ Hpos) as [H0 H1].
  destruct (picked_unanimous h (historyWeights h) (historyWeights_length h))
    as [Hall Hnone].
  assert (HT : 0 < fold_right Qplus 0 (historyWeights h)).
  { apply total_weight_pos; [|exact Hpos].
    intro E. apply (f_equal (@List.length Q)) in E.
    rewrite historyWeights_length in E. destruct h; [congruence | discriminate]. }
  set (T := fold_right Qplus 0 (historyWeights h)) in *.
  split; [split|split].
  - apply Qle_shift_div_l; [exact HT | lra].
  - apply Qle_shift_div_r; [exact HT | lra].
  - intro H. rewrite (Hall H). apply Qmult_inv_r. lra.
  - intro H. rewrite (Hnone H). unfold Qdiv. ring.
Qed.

(** X18.  The recency-weighted average of a non-empty state history lies in
    [0,1]; it is 1 when every entry is occupied and 0 when none is. *)
Theorem weightedAverageOf_range :
  forall stateHistory : list bool,
    stateHistory <> [] ->
    Wf.inUnit (weightedAverageOf stateHistory) /\
    (forallb (fun v => v) stateHistory = true ->
     weightedAverageOf stateHistory == 1) /\
    (forallb negb stateHistory = true ->
     weightedAverageOf stateHistory == 0).
Proof. exact weightedAverage_unit. Qed.




Lemma smoothSpace_same (now : Z) (prev : list ParkingSpace) (s : ParkingSpace) :
  let out := smoothSpace now prev s in
  id out = id s /\ region out = region s /\ vehicleType out = vehicleType s /\
  withStability (features out) 0 = withStability (features s) 0.
Proof.
  unfold smoothSpace. destruct (find _ prev); repeat split.
Qed.

Lemma smoothing_shape :
  forall (st : Settings) (now : Z) (current prev : list ParkingSpace),
    let out := applyEnhancedTemporalSmoothing st now current prev in
    List.length out = List.length current /\
    map id out = map id current /\
    map region out = map region current /\
    map vehicleType out = map vehicleType current /\
    map (fun s => withStability (features s) 0) out
    = map (fun s => withStability (features s) 0) current.
Proof.
  intros st now current prev out. subst out.
  unfold applyEnhancedTemporalSmoothing.
  destruct (Nat.eqb (List.length prev) 0 || negb (useTemporalSmoothing st));
    [repeat split|].
  rewrite length_map, !map_map.
  split; [reflexivity|].
  repeat split; apply map_ext; intro s;
    destruct (smoothSpace_same now prev s) as (H1 & H2 & H3 & H4); assumption.
Qed.

(** X20.  Temporal smoothing returns one space per input space, in order,
    with the same id, region and vehicle type, and with the same features
    apart from the stability score. *)
Theorem smoothing_keeps_structure :
  forall (st : Settings) (now : Z) (current prev : list ParkingSpace),
    let out := applyEnhancedTemporalSmoothing st now current prev in
    List.length out = List.length current /\
    map id out = map id current /\
    map region out = map region current /\
    map vehicleType out = map vehicleType current /\
    map (fun s => withStability (features s) 0) out
    = map (fun s => withStability (features s) 0) current.
Proof. exact smoothing_shape. Qed.

(** ** More on detection calls *)

Lemma filter_partition_length {A : Type} (f : A -> bool) (l : list A) :
  (List.length (filter f l) + List.length (filter (fun a => negb (f a)) l)
   = List.length l)%nat.
Proof.
  induction l as [|a l IH]; [reflexivity|]. simpl.
  destruct (f a); simpl; lia.
Qed.

Lemma resultOf_counts (sp : list ParkingSpace) (p : Path)
  (calls : list (list OracleCall)) :
  let res := resultOf sp p calls in
  total res = Z.of_nat (List.length (spaces res)) /\
  (occupied res + available res = total res)%Z /\
  (0 <= occupied res)%Z /\ (0 <= available res)%Z.
Proof.
  unfold resultOf, countSpaces. cbn.
  pose proof (filter_partition_length isOccupied sp). repeat split; lia.
Qed.

Lemma loadModels_frame (g : Globals)
  (fetched : option (ObjectDetection * MobileNet)) :
  frameCount (fst (loadModels g fetched)) = frameCount g /\
  lastFrameTime (fst (loadModels g fetched)) = lastFrameTime g /\
  previousFrame (fst (loadModels g fetched)) = previousFrame g.
Proof.
  unfold loadModels.
  destruct (objectDetector g), (featureExtractor g); try (repeat split; fail);
    destruct (MAX_MODEL_LOAD_ATTEMPTS <=? modelLoadAttempts g)%Z;
    try (repeat split; fail); destruct fetched as [[d e]|]; repeat split.
Qed.

Section Calls.

Variable edgeK textureK : ImageData.t -> Q.

Lemma processFrame_shape
  (g : Globals) (ml : bool) (clock : Clock) (src : Source)
  (valid : list Region) (prev : list ParkingSpace)
  (g' : Globals) (res : DetectionResult) :
  processFrame edgeK textureK g ml clock src valid prev = (g', inr res) ->
  path res = Processed /\
  frameCount g' = frameCount g /\ lastFrameTime g' = lastFrameTime g /\
  previousFrame g' = Some (tensor src) /\ settings g' = settings g /\
  exists sp calls, res = resultOf sp Processed calls.
Proof.
  unfold processFrame.
  destruct (canvasSize (originalWidth src) (originalHeight src)) as [cw ch].
  destruct (negb (drawable src)); [discriminate|].
  intro H. inversion H; subst. cbn. repeat split. eexists _, _. reflexivity.
Qed.

Lemma processFrame_error
  (g : Globals) (ml : bool) (clock : Clock) (src : Source)
  (valid : list Region) (prev : list ParkingSpace)
  (g' : Globals) (e : string) :
  processFrame edgeK textureK g ml clock src valid prev = (g', inl e) -> g' = g.
Proof.
  unfold processFrame.
  destruct (canvasSize (originalWidth src) (originalHeight src)) as [cw ch].
  destruct (negb (drawable src)); [|discriminate].
  intro H. now inversion H.
Qed.

(** X21.  In every result [detectParkingSpaces] returns, [total] is the
    number of spaces returned and [occupied + available = total], both
    counts being non-negative. *)
Theorem detect_result_counts :
  forall (g : Globals) (clock : Clock)
         (fetched : option (ObjectDetection * MobileNet))
         (src : Source) (regions : list Region) (prev : list ParkingSpace)
         (g' : Globals) (res : DetectionResult),
    detectParkingSpaces edgeK textureK g clock fetched src regions prev
    = (g', inr res) ->
    total res = Z.of_nat (List.length (spaces res)) /\
    (occupied res + available res = total res)%Z /\
    (0 <= occupied res)%Z /\ (0 <= available res)%Z.
Proof.
  intros g clock fetched src regions prev g' res H.
  assert (Hex : exists sp p calls, res = resultOf sp p calls).
  { destruct (detect_cases _ _ _ _ _ _ _ _ _ _ H)
      as [[_ _] | (g3 & ml & Hf & _)].
    - revert H. unfold detectParkingSpaces.
      destruct (negb (present src)); [discriminate|].
      destruct (skipsFrame _ _).
      { intro H. inversion H. eexists _, _, _. reflexivity. }
      destruct (loadModels _ fetched) as [g2 ml].
      destruct (negb (contextAvailable src)); [discriminate|].
      destruct (kind src).
      + destruct (negb (loads src)); [discriminate|]. intro H.
        destruct (processFrame_shape _ _ _ _ _ _ _ _ H)
          as (_ & _ & _ & _ & _ & sp & calls & ->).
        eexists _, _, _. reflexivity.
      + destruct (ended src).
        { intro H. inversion H. eexists _, _, _. reflexivity. }
        destruct ((originalWidth src =? 0)%Z || (originalHeight src =? 0)%Z);
          [discriminate|]. intro H.
        destruct (processFrame_shape _ _ _ _ _ _ _ _ H)
          as (_ & _ & _ & _ & _ & sp & calls & ->).
        eexists _, _, _. reflexivity.
      + destruct (negb (loads src) || (originalWidth src =? 0)%Z);
          [discriminate|]. intro H.
        destruct (processFrame_shape _ _ _ _ _ _ _ _ H)
          as (_ & _ & _ & _ & _ & sp & calls & ->).
        eexists _, _, _. reflexivity.
    - destruct (processFrame_shape _ _ _ _ _ _ _ _ Hf)
        as (_ & _ & _ & _ & _ & sp & calls & ->).
      eexists _, _, _. reflexivity. }
  destruct Hex as (sp & p & calls & ->). apply resultOf_counts.
Qed.

(** X22.  A call without an image source fails with 'Invalid image source'
    and changes no module state.  Every other call increases the frame
    counter by exactly one, stores the time of the call and leaves the
    settings alone; when it returns a result, the stored frame has been
    replaced by the current one if the frame was processed, and otherwise
    the stored frame is untouched, the previous spaces are handed back and
    no model call was made. *)
Theorem detect_updates_counters :
  forall (g : Globals) (clock : Clock)
         (fetched : option (ObjectDetection * MobileNet))
         (src : Source) (regions : list Region) (prev : list ParkingSpace),
    let out :=
      detectParkingSpaces edgeK textureK g clock fetched src regions prev in
    (present src = false ->
     out = (g, inl "Invalid image source"%string)) /\
    (present src = true ->
     frameCount (fst out) = (frameCount g + 1)%Z /\
     lastFrameTime (fst out) = currentTime clock /\
     settings (fst out) = settings g /\
     (forall res, snd out = inr res ->
                  (path res = Processed ->
                   previousFrame (fst out) = Some (tensor src)) /\
                  (path res <> Processed ->
                   previousFrame (fst out) = previousFrame g /\
                   spaces res = prev /\ oracleCalls res = []))).
Proof.
  intros g clock fetched src regions prev out.
  split; intro Hp.
  { subst out. unfold detectParkingSpaces. rewrite Hp. reflexivity. }
  pose (P := fun o : Globals * (string + DetectionResult) =>
               frameCount (fst o) = (frameCount g + 1)%Z /\
               lastFrameTime (fst o) = currentTime clock /\
               settings (fst o) = settings g /\
               (forall res, snd o = inr res ->
                            (path res = Processed ->
                             previousFrame (fst o) = Some (tensor src)) /\
                            (path res <> Processed ->
                             previousFrame (fst o) = previousFrame g /\
                             spaces res = prev /\ oracleCalls res = []))).
  change (P out). subst out. unfold detectParkingSpaces.
  rewrite Hp. cbn [negb].
  assert (Hearly : forall (gx : Globals) (p : Path),
             p <> Processed ->
             frameCount gx = (frameCount g + 1)%Z ->
             lastFrameTime gx = currentTime clock ->
             settings gx = settings g ->
             previousFrame gx = previousFrame g ->
             P (gx, inr (resultOf prev p []))).
  { intros gx p Hn H1 H2 H3 H4. unfold P. cbn [fst snd].
    split; [exact H1|]. split; [exact H2|]. split; [exact H3|].
    intros r E. inversion E; subst r. cbn. split; [congruence|].
    intros _. repeat split. exact H4. }
  assert (Herr : forall (gx : Globals) (msg : string),
             frameCount gx = (frameCount g + 1)%Z ->
             lastFrameTime gx = currentTime clock ->
             settings gx = settings g ->
             P (gx, inl msg)).
  { intros gx msg H1 H2 H3. unfold P. cbn [fst snd].
    split; [exact H1|]. split; [exact H2|]. split; [exact H3|].
    intros r E. discriminate E. }
  destruct (skipsFrame _ _).
  { apply Hearly; [discriminate | reflexivity..]. }
  destruct (loadModels _ fetched) as [g2 ml] eqn:El.
  pose proof (loadModels_frame
                (mkGlobals (objectDetector g) (featureExtractor g)
                           (modelLoadAttempts g) (frameCount g)
                           (currentTime clock) (previousFrame g) (settings g))
                fetched) as (Hfc & Hlt & Hpf).
  pose proof (loadModels_settings
                (mkGlobals (objectDetector g) (featureExtractor g)
                           (modelLoadAttempts g) (frameCount g)
                           (currentTime clock) (previousFrame g) (settings g))
                fetched) as Hst.
  rewrite El in Hfc, Hlt, Hpf, Hst. cbn in Hfc, Hlt, Hpf, Hst.
  set (g3 := mkGlobals (objectDetector g2) (featureExtractor g2)
                       (modelLoadAttempts g2) (frameCount g2 + 1)
                       (lastFrameTime g2) (previousFrame g2) (settings g2)).
  assert (H31 : frameCount g3 = (frameCount g + 1)%Z) by (cbn; congruence).
  assert (H32 : lastFrameTime g3 = currentTime clock) by (cbn; congruence).
  assert (H33 : settings g3 = settings g) by (cbn; congruence).
  assert (H34 : previousFrame g3 = previousFrame g) by (cbn; congruence).
  assert (Hframe : P (processFrame edgeK textureK g3 ml clock src
                                   (filter isValidRegion regions) prev)).
  { destruct (processFrame edgeK textureK g3 ml clock src
                           (filter isValidRegion regions) prev)
      as [go [e | res]] eqn:Eo.
    - apply processFrame_error in Eo. subst go. now apply Herr.
    - destruct (processFrame_shape _ _ _ _ _ _ _ _ Eo)
        as (Hpath & H1 & H2 & H3 & H4 & _).
      unfold P. cbn [fst snd].
      split; [congruence|]. split; [congruence|]. split; [congruence|].
      intros r E. inversion E; subst r. split; [intros _; exact H3|].
      intro Hn. contradiction. }
  destruct (negb (contextAvailable src)); [now apply Herr|].
  destruct (kind src).
  - destruct (negb (loads src)); [now apply Herr | exact Hframe].
  - destruct (ended src); [apply Hearly; [discriminate | assumption..]|].
    destruct ((originalWidth src =? 0)%Z || (originalHeight src =? 0)%Z);
      [now apply Herr | exact Hframe].
  - destruct (negb (loads src) || (originalWidth src =? 0)%Z);
      [now apply Herr | exact Hframe].
Qed.

End Calls.

Lemma scaleRegions_length (cw ch : Q) (ow oh : Z) (valid : list Region) :
  List.length (scaleRegions cw ch ow oh valid) = List.length valid.
Proof.
  unfold scaleRegions. destruct (forallb pointsNormalized valid);
    now rewrite length_map.
Qed.

Lemma mapRegions_fst
  (f : nat -> Region -> Region -> ParkingSpace * list OracleCall) :
  (forall i v s, region (fst (f i v s)) = v) ->
  (forall i v s, id (fst (f i v s)) = Z.of_nat i) ->
  forall (vs ss : list Region) (k : nat),
    List.length ss = List.length vs ->
    map (fun o => region (fst o)) (mapRegions f k vs ss) = vs /\
    map (fun o => id (fst o)) (mapRegions f k vs ss)
    = map Z.of_nat (seq k (List.length vs)) /\
    List.length (mapRegions f k vs ss) = List.length vs.
Proof.
  intros Hr Hi. induction vs as [|v vs IH]; intros ss k Hlen.
  - repeat split.
  - destruct ss as [|s ss]; [discriminate|].
    cbn [mapRegions map List.length seq].
    destruct (IH ss (S k) ltac:(simpl in Hlen; lia)) as (H1 & H2 & H3).
    rewrite H1, H2, H3, Hr, Hi. repeat split.
Qed.

Section MoreCalls.

Variable edgeK textureK : ImageData.t -> Q.

Lemma processRegion_id
  (g : Globals) (ml : bool) (src : Source) (cw ch motion : Q)
  (prev : list ParkingSpace) (clock : Clock) (i : nat) (r sr : Region) :
  id (fst (processRegion edgeK textureK g ml src cw ch motion prev clock i r sr))
  = Z.of_nat i.
Proof.
  unfold processRegion.
  destruct (tooSmall (getRegionBounds sr)); [reflexivity|].
  destruct (getImageData src _ _ _ _) as [img|]; [|reflexivity].
  destruct (shouldVerify _ _ _ _ _); [|reflexivity].
  destruct (verifyWithModel_frame
              (objectDetector g) (featureExtractor g)
              (heuristicSpace (Z.of_nat i)
                 (mkRegion (rid r) (points r) (rtype r))
                 (regionTime clock i) (getRegionBounds sr) ch
                 (find (fun s => (id s =? Z.of_nat i)%Z) prev)
                 (readFeatures edgeK textureK img motion
                    (find (fun s => (id s =? Z.of_nat i)%Z) prev)))
              (tensor src)) as (H & _).
  exact H.
Qed.

Lemma detect_processed_with_models
  (g : Globals) (clock : Clock) (fetched : option (ObjectDetection * MobileNet))
  (src : Source) (regions : list Region) (prev : list ParkingSpace)
  (g' : Globals) (res : DetectionResult) :
  detectParkingSpaces edgeK textureK g clock fetched src regions prev
  = (g', inr res) ->
  path res = Processed ->
  let lm :=
    loadModels (mkGlobals (objectDetector g) (featureExtractor g)
                          (modelLoadAttempts g) (frameCount g)
                          (currentTime clock) (previousFrame g) (settings g))
               fetched in
  processFrame edgeK textureK
    (mkGlobals (objectDetector (fst lm)) (featureExtractor (fst lm))
               (modelLoadAttempts (fst lm)) (frameCount (fst lm) + 1)
               (lastFrameTime (fst lm)) (previousFrame (fst lm))
               (settings (fst lm)))
    (snd lm) clock src (filter isValidRegion regions) prev
  = (g', inr res).
Proof.
  unfold detectParkingSpaces. intros H Hp.
  destruct (negb (present src)); [discriminate|].
  destruct (skipsFrame _ _).
  { inversion H; subst. discriminate. }
  destruct (loadModels _ fetched) as [g2 ml] eqn:El. cbn [fst snd].
  destruct (negb (contextAvailable src)); [discriminate|].
  destruct (kind src).
  - destruct (negb (loads src)); [discriminate | exact H].
  - destruct (ended src).
    { inversion H; subst. discriminate. }
    destruct ((originalWidth src =? 0)%Z || (originalHeight src =? 0)%Z);
      [discriminate | exact H].
  - destruct (negb (loads src) || (originalWidth src =? 0)%Z);
      [discriminate | exact H].
Qed.

(** X23.  A processed frame yields exactly one space per valid region, in
    the order of the regions: the regions of the spaces are the valid input
    regions, the ids are 0, 1, 2, ..., and every returned region has at
    least three points. *)
Theorem processed_spaces_follow_valid_regions :
  forall (g : Globals) (clock : Clock)
         (fetched : option (ObjectDetection * MobileNet))
         (src : Source) (regions : list Region) (prev : list ParkingSpace)
         (g' : Globals) (res : DetectionResult),
    detectParkingSpaces edgeK textureK g clock fetched src regions prev
    = (g', inr res) ->
    path res = Processed ->
    map region (spaces res) = filter isValidRegion regions /\
    map id (spaces res)
    = map Z.of_nat (seq 0 (List.length (filter isValidRegion regions))) /\
    List.length (oracleCalls res)
    = List.length (filter isValidRegion regions) /\
    Forall (fun r => (3 <= List.length (points r))%nat) (map region (spaces res)).
Proof.
  intros g clock fetched src regions prev g' res Hcall Hpath.
  destruct (detect_processed _ _ _ _ _ _ _ _ _ _ Hcall Hpath)
    as (g3 & ml & Hframe & _).
  destruct (processFrame_result _ _ _ _ _ _ _ _ _ _ Hframe) as [Hsp Hor].
  cbv zeta in Hsp, Hor.
  set (f := processRegion edgeK textureK g3 ml src _ _ _ prev clock) in *.
  set (ss := scaleRegions _ _ _ _ _) in *.
  assert (Hlen : List.length ss = List.length (filter isValidRegion regions))
    by apply scaleRegions_length.
  assert (Hr : forall i v s, region (fst (f i v s)) = v)
    by (intros; apply processRegion_region).
  assert (Hi : forall i v s, id (fst (f i v s)) = Z.of_nat i)
    by (intros; apply processRegion_id).
  destruct (mapRegions_fst f Hr Hi (filter isValidRegion regions) ss 0%nat Hlen)
    as (H1 & H2 & H3).
  destruct (smoothing_shape (settings g3) (smoothingTime clock)
              (map fst (mapRegions f 0 (filter isValidRegion regions) ss)) prev)
    as (_ & Hid & Hreg & _).
  rewrite <- Hsp in Hid, Hreg. rewrite !map_map in Hid, Hreg.
  assert (Hregions : map region (spaces res) = filter isValidRegion regions)
    by (rewrite Hreg; exact H1).
  split; [exact Hregions|]. split; [rewrite Hid; exact H2|].
  split; [rewrite Hor, length_map; exact H3|].
  rewrite Hregions. apply Forall_forall. intros r Hin.
  apply filter_In in Hin. destruct Hin as [_ Hv].
  unfold isValidRegion in Hv. now apply Nat.leb_le in Hv.
Qed.

End MoreCalls.

Lemma carriedStability_unit (prev : list ParkingSpace)
  (f : ParkingSpace -> bool) :
  Forall Wf.stabilityInUnit prev ->
  Wf.inUnit (carriedStability (find f prev)).
Proof.
  intro Hprev. destruct (find f prev) as [p|] eqn:E; cbn.
  - apply find_some in E. destruct E as [Hin _].
    rewrite Forall_forall in Hprev. specialize (Hprev p Hin).
    unfold JS.or_default.
    destruct (Qeq_bool (stabilityScore (features p)) 0); [|exact Hprev].
    split; discriminate.
  - split; discriminate.
Qed.

Lemma smoothSpace_stability (now : Z) (prev : list ParkingSpace)
  (s : ParkingSpace) :
  Wf.stabilityInUnit s -> Wf.stabilityInUnit (smoothSpace now prev s).
Proof.
  intros [H0 H1]. unfold smoothSpace.
  destruct (find _ prev) as [p|]; [|split; assumption].
  unfold Wf.stabilityInUnit, smoothWith. cbn.
  destruct (Bool.eqb _ _); [apply min1_unit | apply max0_unit]; lra.
Qed.

Section StabilityInvariant.

Variable edgeK textureK : ImageData.t -> Q.
Variable prev : list ParkingSpace.
Hypothesis prev_unit : Forall Wf.stabilityInUnit prev.

Lemma processRegion_stability
  (g : Globals) (ml : bool) (src : Source) (cw ch motion : Q)
  (clock : Clock) (i : nat) (r sr : Region) :
  Wf.stabilityInUnit
    (fst (processRegion edgeK textureK g ml src cw ch motion prev clock i r sr)).
Proof.
  unfold processRegion.
  destruct (tooSmall (getRegionBounds sr)); [split; discriminate|].
  destruct (getImageData src _ _ _ _) as [img|]; [|split; discriminate].
  set (space := heuristicSpace _ _ _ _ _ _ _).
  assert (Hs : Wf.stabilityInUnit space).
  { subst space. unfold Wf.stabilityInUnit, heuristicSpace, readFeatures. cbn.
    now apply carriedStability_unit. }
  destruct (shouldVerify _ _ _ _ _); [|exact Hs].
  now apply verifyWithModel_frame.
Qed.

Lemma detect_stability
  (g : Globals) (clock : Clock) (fetched : option (ObjectDetection * MobileNet))
  (src : Source) (regions : list Region)
  (g' : Globals) (res : DetectionResult) :
  detectParkingSpaces edgeK textureK g clock fetched src regions prev
  = (g', inr res) ->
  Forall Wf.stabilityInUnit (spaces res).
Proof.
  intro H. destruct (detect_cases _ _ _ _ _ _ _ _ _ _ H)
    as [[_ Hprev] | (g3 & ml & Hframe & _)].
  - rewrite Hprev. exact prev_unit.
  - destruct (processFrame_result _ _ _ _ _ _ _ _ _ _ Hframe) as [Hsp _].
    rewrite Hsp. unfold applyEnhancedTemporalSmoothing.
    assert (Hcur : Forall Wf.stabilityInUnit
                     (map fst
                        (mapRegions
                           (processRegion edgeK textureK g3 ml src
                              (fst (canvasSize (originalWidth src)
                                               (originalHeight src)))
                              (snd (canvasSize (originalWidth src)
                                               (originalHeight src)))
                              (if useMotionDetection (settings g3)
                               then calculateEnhancedMotionScore
                                      (tensor src) (previousFrame g3)
                               else 0) prev clock)
                           0 (filter isValidRegion regions)
                           (scaleRegions
                              (fst (canvasSize (originalWidth src)
                                               (originalHeight src)))
                              (snd (canvasSize (originalWidth src)
                                               (originalHeight src)))
                              (originalWidth src) (originalHeight src)
                              (filter isValidRegion regions))))).
    { apply Forall_map. apply Forall_forall. intros out Hin.
      apply in_mapRegions in Hin. destruct Hin as (i & v & s & _ & ->).
      apply processRegion_stability. }
    destruct (Nat.eqb (List.length prev) 0
              || negb (useTemporalSmoothing (settings g3))); [exact Hcur|].
    apply Forall_map. eapply Forall_impl; [|exact Hcur].
    intros s Hs. now apply smoothSpace_stability.
Qed.

End StabilityInvariant.

Lemma runDetection_stability (edgeK textureK : ImageData.t -> Q) :
  forall (calls : list CallInput) (g : Globals) (prev : list ParkingSpace),
    Forall Wf.stabilityInUnit prev ->
    Forall Wf.stabilityInUnit (runDetection edgeK textureK g prev calls).
Proof.
  induction calls as [|c rest IH]; intros g prev Hprev; simpl; [exact Hprev|].
  destruct (detectParkingSpaces edgeK textureK g (callClock c) (callFetched c)
                                (callSource c) (callRegions c) prev)
    as [g' [e | res]] eqn:E.
  - now apply IH.
  - apply IH. exact (detect_stability edgeK textureK prev Hprev _ _ _ _ _ _ _ E).
Qed.

(** X24.  The stability score stays in [0,1]: a call fed previous spaces
    whose stability scores are in [0,1] returns such spaces, hence every run
    that threads the returned spaces from the empty list does. *)
Theorem stability_score_stays_in_unit_interval :
  (forall (edgeK textureK : ImageData.t -> Q)
          (g : Globals) (clock : Clock)
          (fetched : option (ObjectDetection * MobileNet))
          (src : Source) (regions : list Region) (prev : list ParkingSpace)
          (g' : Globals) (res : DetectionResult),
      Forall Wf.stabilityInUnit prev ->
      detectParkingSpaces edgeK textureK g clock fetched src regions prev
      = (g', inr res) ->
      Forall Wf.stabilityInUnit (spaces res)) /\
  (forall (edgeK textureK : ImageData.t -> Q)
          (g : Globals) (calls : list CallInput),
      Forall Wf.stabilityInUnit (runDetection edgeK textureK g [] calls)).
Proof.
  split.
  - intros edgeK textureK g clock fetched src regions prev g' res Hprev Hcall.
    exact (detect_stability edgeK textureK prev Hprev _ _ _ _ _ _ _ Hcall).
  - intros edgeK textureK g calls.
    apply (runDetection_stability edgeK textureK calls g []). constructor.
Qed.


Section HeuristicOnly.

Variable edgeK textureK : ImageData.t -> Q.



(** X26.  On the first processed frame (no stored previous frame), or with
    motion detection switched off, every returned space has motion score
    0. *)
Theorem first_frame_has_no_motion :
  forall (g : Globals) (clock : Clock)
         (fetched : option (ObjectDetection * MobileNet))
         (src : Source) (regions : list Region) (prev : list ParkingSpace)
         (g' : Globals) (res : DetectionResult),
    previousFrame g = None \/ useMotionDetection (settings g) = false ->
    detectParkingSpaces edgeK textureK g clock fetched src regions prev
    = (g', inr res) ->
    path res = Processed ->
    Forall (fun s => motionScore (features s) = 0) (spaces res).
Proof.
  intros g clock fetched src regions prev g' res Hfirst Hcall Hpath.
  pose proof (detect_processed_with_models edgeK textureK _ _ _ _ _ _ _ _
                Hcall Hpath) as Hframe.
  cbv zeta in Hframe.
  set (g1 := mkGlobals (objectDetector g) (featureExtractor g)
                       (modelLoadAttempts g) (frameCount g)
                       (currentTime clock) (previousFrame g) (settings g)) in *.
  set (lm := loadModels g1 fetched) in *.
  set (g3 := mkGlobals _ _ _ _ _ _ _) in Hframe.
  assert (Hm : (if useMotionDetection (settings g3)
                then calculateEnhancedMotionScore (tensor src) (previousFrame g3)
                else 0) = 0).
  { assert (Hs : settings g3 = settings g).
    { subst g3. cbn. subst lm. now rewrite loadModels_settings. }
    assert (Hp : previousFrame g3 = previousFrame g).
    { subst g3. cbn. subst lm.
      now destruct (loadModels_frame g1 fetched) as (_ & _ & ->). }
    rewrite Hs, Hp. destruct Hfirst as [-> | ->]; [|reflexivity].
    destruct (useMotionDetection (settings g)); reflexivity. }
  destruct (processFrame_result _ _ _ _ _ _ _ _ _ _ Hframe) as [Hsp _].
  cbv zeta in Hsp. rewrite Hm in Hsp.
  set (f := processRegion edgeK textureK g3 (snd lm) src _ _ 0 prev clock) in *.
  set (results := mapRegions f 0 _ _) in *.
  assert (Hcur : Forall (fun s => motionScore (features s) = 0)
                        (map fst results)).
  { apply Forall_map. apply Forall_forall. intros out Hin.
    apply in_mapRegions in Hin. destruct Hin as (i & v & s & _ & ->).
    subst f. unfold processRegion.
    destruct (tooSmall (getRegionBounds s)); [reflexivity|].
    destruct (getImageData src _ _ _ _) as [img|]; [|reflexivity].
    destruct (shouldVerify _ _ _ _ _); [|reflexivity].
    set (space := heuristicSpace _ _ _ _ _ _ _).
    destruct (verifyWithModel_frame
                (objectDetector g3) (featureExtractor g3) space (tensor src))
      as (_ & _ & _ & _ & Hmotion & _).
    rewrite Hmotion. reflexivity. }
  rewrite Hsp. unfold applyEnhancedTemporalSmoothing.
  destruct (Nat.eqb (List.length prev) 0
            || negb (useTemporalSmoothing (settings g3))); [exact Hcur|].
  apply Forall_map. eapply Forall_impl; [|exact Hcur].
  intros s Hs. unfold smoothSpace.
  destruct (find _ prev) as [p|]; [|exact Hs]. exact Hs.
Qed.

End HeuristicOnly.

(** ** More on the motion estimator *)

Lemma changed_self (ps : list (Q * Q * Q)) :
  filter Spec.pixelChanged (combine ps ps) = [].
Proof.
  induction ps as [|p ps IH]; [reflexivity|].
  cbn [combine filter].
  assert (E : Spec.pixelChanged (p, p) = false).
  { unfold Spec.pixelChanged. apply gt_false_iff. cbn [fst snd].
    unfold JS.abs.
    assert (H : rgbToGrayscale p - rgbToGrayscale p == 0) by ring.
    rewrite H. discriminate. }
  now rewrite E.
Qed.

Lemma changed_swap (cs ps : list (Q * Q * Q)) :
  List.length (filter Spec.pixelChanged (combine cs ps))
  = List.length (filter Spec.pixelChanged (combine ps cs)).
Proof.
  revert ps. induction cs as [|c cs IH]; intros [|p ps]; try reflexivity.
  cbn [combine filter].
  assert (E : Spec.pixelChanged (c, p) = Spec.pixelChanged (p, c)).
  { unfold Spec.pixelChanged. cbn [fst snd]. unfold JS.gt. f_equal.
    unfold JS.abs.
    assert (H : rgbToGrayscale c - rgbToGrayscale p
                == - (rgbToGrayscale p - rgbToGrayscale c)) by ring.
    destruct (Qle_bool (Qabs (rgbToGrayscale c - rgbToGrayscale p)) 0.05) eqn:A.
    - symmetry. apply Qle_bool_iff. apply Qle_bool_iff in A.
      rewrite H, Qabs_opp in A. exact A.
    - symmetry. destruct (Qle_bool (Qabs (rgbToGrayscale p - rgbToGrayscale c))
                                   0.05) eqn:B; [|reflexivity].
      apply Qle_bool_iff in B. rewrite <- Qabs_opp, <- H in B.
      apply Qle_bool_iff in B. congruence. }
  rewrite E. destruct (Spec.pixelChanged (p, c)); cbn [List.length];
    now rewrite IH.
Qed.

(** X27.  The motion score of a frame against itself is 0, and the motion
    score of two frames of one shape does not depend on which of them is
    the current one. *)
Theorem motion_score_symmetric_and_zero_on_same_frame :
  (forall frame : Tensor3D,
      Spec.wellShaped frame ->
      calculateEnhancedMotionScore frame (Some frame) == 0) /\
  (forall a b : Tensor3D,
      Spec.wellShaped a -> Spec.wellShaped b ->
      shape a = shape b ->
      calculateEnhancedMotionScore a (Some b)
      = calculateEnhancedMotionScore b (Some a)).
Proof.
  split.
  - intros frame _. unfold calculateEnhancedMotionScore.
    rewrite countTrue_changed, changed_self. reflexivity.
  - intros a b _ _ Hs. unfold calculateEnhancedMotionScore.
    rewrite !countTrue_changed, Hs, changed_swap. reflexivity.
Qed.

(** ** More on frame skipping and model loading *)

Section SkipRule.

Variable edgeK textureK : ImageData.t -> Q.

(** X28.  With an image source present, a call takes the frame-skip return
    exactly when less than 1000/30 ms have passed since the previous call
    and the frame counter is positive; it then returns the previous spaces
    and only advances the counter and the clock. *)
Theorem call_is_skipped_iff :
  forall (g : Globals) (clock : Clock)
         (fetched : option (ObjectDetection * MobileNet))
         (src : Source) (regions : list Region) (prev : list ParkingSpace),
    present src = true ->
    let out :=
      detectParkingSpaces edgeK textureK g clock fetched src regions prev in
    let early :=
      JS.lt (inject_Z (currentTime clock - lastFrameTime g)) (1000 / 30)
      && (0 <? frameCount g)%Z in
    (early = true ->
     out = (mkGlobals (objectDetector g) (featureExtractor g)
                      (modelLoadAttempts g) (frameCount g + 1)
                      (currentTime clock) (previousFrame g) (settings g),
            inr (resultOf prev Skipped []))) /\
    (early = false ->
     forall res, snd out = inr res -> path res <> Skipped).
Proof.
  intros g clock fetched src regions prev Hp out early. subst out early.
  unfold detectParkingSpaces. rewrite Hp. cbn [negb].
  rewrite skipsFrame_zero_skip. cbn [frameCount].
  split; intro He; rewrite He; [reflexivity|].
  destruct (loadModels _ fetched) as [g2 ml].
  assert (Hframe : forall o : Globals * (string + DetectionResult),
             o = processFrame edgeK textureK
                   (mkGlobals (objectDetector g2) (featureExtractor g2)
                              (modelLoadAttempts g2) (frameCount g2 + 1)
                              (lastFrameTime g2) (previousFrame g2) (settings g2))
                   ml clock src (filter isValidRegion regions) prev ->
             forall res, snd o = inr res -> path res <> Skipped).
  { intros [go [e | r]] Eo res E; [discriminate|]. symmetry in Eo.
    destruct (processFrame_shape _ _ _ _ _ _ _ _ _ _ Eo) as (Hpath & _).
    inversion E; subst. congruence. }
  destruct (negb (contextAvailable src)); [discriminate|].
  destruct (kind src).
  - destruct (negb (loads src)); [discriminate | now apply Hframe].
  - destruct (ended src).
    { intros res E. inversion E; subst. discriminate. }
    destruct ((originalWidth src =? 0)%Z || (originalHeight src =? 0)%Z);
      [discriminate | now apply Hframe].
  - destruct (negb (loads src) || (originalWidth src =? 0)%Z);
      [discriminate | now apply Hframe].
Qed.

End SkipRule.


(** ** Settings that are never read *)

Lemma mapRegions_ext
  (f f' : nat -> Region -> Region -> ParkingSpace * list OracleCall) :
  (forall i v s, f i v s = f' i v s) ->
  forall vs ss k, mapRegions f k vs ss = mapRegions f' k vs ss.
Proof.
  intros H. induction vs as [|v vs IH]; intros ss k; [reflexivity|].
  destruct ss as [|s ss]; [reflexivity|].
  cbn [mapRegions]. now rewrite H, IH.
Qed.

Section DeadSettings.

Variable edgeK textureK : ImageData.t -> Q.

(** X30.  [updateSettings] on [useAdvancedFeatures] and
    [useModelVerification] has no effect on the result of any
    [detectParkingSpaces] call (spaces, counts, return path and model calls
    alike): the detection never reads these two settings. *)
Theorem unread_settings_change_nothing :
  forall (g : Globals) (advanced verification : option bool)
         (clock : Clock) (fetched : option (ObjectDetection * MobileNet))
         (src : Source) (regions : list Region) (prev : list ParkingSpace),
    let g' :=
      updateSettings g (mkPatch None None advanced verification None None) in
    snd (detectParkingSpaces edgeK textureK g' clock fetched src regions prev)
    = snd (detectParkingSpaces edgeK textureK g clock fetched src regions prev).
Proof.
  intros g advanced verification clock fetched src regions prev g'.
  subst g'. destruct g as [od fe att fc lt pf st].
  unfold updateSettings, assignSettings. cbn.
  set (st' := mkSettings _ _ _ _ _ _).
  assert (Hm : useMotionDetection st' = useMotionDetection st) by reflexivity.
  assert (Ht : useTemporalSmoothing st' = useTemporalSmoothing st) by reflexivity.
  assert (Ha : useAdaptiveVerification st' = useAdaptiveVerification st)
    by reflexivity.
  clearbody st'.
  assert (Hframe : forall od' fe' att' fc' lt' ml,
             snd (processFrame edgeK textureK
                    (mkGlobals od' fe' att' fc' lt' pf st') ml clock src
                    (filter isValidRegion regions) prev)
             = snd (processFrame edgeK textureK
                      (mkGlobals od' fe' att' fc' lt' pf st) ml clock src
                      (filter isValidRegion regions) prev)).
  { intros od' fe' att' fc' lt' ml. unfold processFrame.
    destruct (canvasSize (originalWidth src) (originalHeight src)) as [cw ch].
    destruct (negb (drawable src)); [reflexivity|].
    cbn [snd settings previousFrame]. unfold applyEnhancedTemporalSmoothing.
    rewrite Hm, Ht.
    rewrite (mapRegions_ext
               (processRegion edgeK textureK
                  (mkGlobals od' fe' att' fc' lt' pf st') ml src cw ch
                  (if useMotionDetection st
                   then calculateEnhancedMotionScore (tensor src) pf else 0)
                  prev clock)
               (processRegion edgeK textureK
                  (mkGlobals od' fe' att' fc' lt' pf st) ml src cw ch
                  (if useMotionDetection st
                   then calculateEnhancedMotionScore (tensor src) pf else 0)
                  prev clock)); [reflexivity|].
    intros i v s. unfold processRegion, shouldVerify. cbn. now rewrite Ha. }
  unfold detectParkingSpaces. cbn.
  destruct (negb (present src)); [reflexivity|].
  destruct (skipsFrame _ _); [reflexivity|].
  unfold loadModels. cbn.
  destruct od as [d|], fe as [e|];
    try destruct (MAX_MODEL_LOAD_ATTEMPTS <=? att)%Z;
    try destruct fetched as [[d' e']|]; cbn;
    (destruct (negb (contextAvailable src)); [reflexivity|]);
    (destruct (kind src);
     [ destruct (negb (loads src)); [reflexivity | apply Hframe]
     | destruct (ended src); [reflexivity|];
       destruct ((originalWidth src =? 0)%Z || (originalHeight src =? 0)%Z);
       [reflexivity | apply Hframe]
     | destruct (negb (loads src) || (originalWidth src =? 0)%Z);
       [reflexivity | apply Hframe] ]).
Qed.

End DeadSettings.

(** ** The properties at concrete inputs *)

Lemma getRegionBounds_encloses_witness :
  minX (getRegionBounds Example.slot) <= 0.275 /\
  0.275 <= maxX (getRegionBounds Example.slot).
Proof.
  destruct (getRegionBounds_encloses Example.slot (mkPoint 0.275 0.25))
    as (H1 & H2 & _).
  - right; left. reflexivity.
  - split; assumption.
Defined.

Lemma getRegionBounds_scaleRegion_witness :
  width (getRegionBounds (scaleRegion 1280 720 Example.slot))
  == width (getRegionBounds Example.slot) * 1280.
Proof.
  destruct (getRegionBounds_scaleRegion 1280 720 Example.slot)
    as (_ & _ & _ & _ & H & _).
  - discriminate.
  - discriminate.
  - discriminate.
  - exact H.
Defined.


Lemma flat3_image : Wf.image Sample.flat3.
Proof.
  split; [reflexivity|]. split; [reflexivity|]. split; [reflexivity|].
  vm_compute. repeat constructor; discriminate.
Defined.

Lemma flat3_flat : Wf.flat Sample.flat3 128 128 128.
Proof.
  intros k Hk. change (ImageData.width Sample.flat3) with 3%Z in Hk.
  change (ImageData.height Sample.flat3) with 3%Z in Hk.
  assert (Hc : (k = 0 \/ k = 1 \/ k = 2 \/ k = 3 \/ k = 4 \/ k = 5 \/ k = 6
                \/ k = 7 \/ k = 8)%Z) by lia.
  destruct Hc as [-> | [-> | [-> | [-> | [-> | [-> | [-> | [-> | ->]]]]]]]];
    repeat split; reflexivity.
Defined.

Lemma coverage_in_unit_interval_witness :
  Wf.inUnit (inject_Z (countNonZeroPixels Sample.flat3) / (inject_Z 3 * inject_Z 3)).
Proof. exact (proj2 (coverage_in_unit_interval Sample.flat3 flat3_image)). Defined.

Lemma calculateBrightness_in_unit_interval_witness :
  Wf.inUnit (calculateBrightness Sample.flat3).
Proof. exact (calculateBrightness_in_unit_interval Sample.flat3 flat3_image). Defined.

Lemma calculateColorVariance_in_unit_interval_witness :
  Wf.inUnit (calculateColorVariance Sample.flat3).
Proof. exact (calculateColorVariance_in_unit_interval Sample.flat3 flat3_image). Defined.

Lemma calculateDynamicThreshold_range_witness :
  0.25 <= calculateDynamicThreshold Sample.flat3 /\
  calculateDynamicThreshold Sample.flat3 <= 1.5.
Proof. exact (calculateDynamicThreshold_range Sample.flat3 flat3_image). Defined.

Lemma calculateEnhancedShadowScore_in_unit_interval_witness :
  Wf.inUnit (calculateEnhancedShadowScore
               (calculateEnhancedEdgeDensity Sample.approxSqrt)
               calculateTextureComplexity Sample.flat3).
Proof.
  apply calculateEnhancedShadowScore_in_unit_interval.
  - exact flat3_image.
  - vm_compute. discriminate.
  - vm_compute. discriminate.
Defined.

Lemma heuristic_score_and_confidence_ranges_witness :
  Wf.inUnit (occupancyScore Example.shadowed) /\
  0.21 <= heuristicConfidence Example.shadowed.
Proof.
  destruct (heuristic_score_and_confidence_ranges Example.shadowed)
    as (H1 & H2 & _).
  - split; discriminate.
  - discriminate.
  - split; assumption.
Defined.

Lemma carriedStability_never_zero_witness :
  carriedStability (Some Example.flooredPrevious) = 0.5.
Proof.
  destruct (carriedStability_never_zero (Some Example.flooredPrevious))
    as (_ & _ & H).
  destruct (H Example.flooredPrevious eq_refl) as [H0 _].
  apply H0. reflexivity.
Defined.

Lemma calculateTextureComplexity_range_and_flat_witness :
  calculateTextureComplexity Sample.flat3 == 1.
Proof.
  destruct (calculateTextureComplexity_range_and_flat Sample.flat3) as [_ H].
  - discriminate.
  - discriminate.
  - exact (H 128 128 128 flat3_flat)%Z.
Defined.

Lemma approxSqrt_proper (a b : Q) :
  a == b -> Sample.approxSqrt a == Sample.approxSqrt b.
Proof. intro H. unfold Sample.approxSqrt. now rewrite H. Defined.

Lemma edge_density_nonneg_and_zero_when_flat_witness :
  0 <= calculateEnhancedEdgeDensity Sample.approxSqrt Sample.flat3 /\
  calculateEnhancedEdgeDensity Sample.approxSqrt Sample.flat3 == 0.
Proof.
  destruct (edge_density_nonneg_and_zero_when_flat Sample.approxSqrt)
    as [Hpos Hflat].
  split.
  - apply Hpos; reflexivity.
  - destruct (Hflat approxSqrt_proper eq_refl Sample.flat3 128 128 128
                    eq_refl eq_refl flat3_flat)%Z as (_ & _ & H).
    exact H.
Defined.


Lemma mergeVerdict_takes_best_vehicle_box_witness :
  0.72 < confidence (mergeVerdict Example.vacatedSpace Sample.boxes []) /\
  isOccupied (mergeVerdict Example.vacatedSpace Sample.boxes []) = true.
Proof.
  destruct (mergeVerdict_takes_best_vehicle_box Example.vacatedSpace
              Sample.boxes [] eq_refl)
    as (best & _ & _ & _ & Hocc & _ & _ & Hconf & _).
  split; assumption.
Defined.

Lemma mergeVerdict_falls_back_to_classifier_witness :
  0.6 < confidence (mergeVerdict Example.vacatedSpace [] Sample.labels) /\
  isOccupied (mergeVerdict Example.vacatedSpace [] Sample.labels) = true.
Proof.
  destruct (mergeVerdict_falls_back_to_classifier Example.vacatedSpace
              [] Sample.labels eq_refl eq_refl)
    as (best & _ & _ & Hocc & _ & _ & _ & Hconf).
  split; assumption.
Defined.

Lemma verifyWithModel_calls_in_bounds_witness :
  let c := cropOf Example.vacatedSpace Example.grayTensor in
  (10 <= cropWidth c)%Z /\ (cropMinX c + cropWidth c <= 1280)%Z /\
  (cropMinY c + cropHeight c <= 720)%Z.
Proof.
  intro c.
  destruct (verifyWithModel_calls_in_bounds
              (Some Example.carDetector) (Some Example.silentClassifier)
              Example.vacatedSpace Example.grayTensor) as [_ H].
  destruct H as (_ & _ & _ & _ & Hw & _ & Hx & Hy).
  - lazy. discriminate.
  - repeat split; assumption.
Defined.

Lemma verifyWithModel_preserves_identity_and_range_witness :
  Wf.stabilityInUnit
    (fst (verifyWithModel (Some Example.carDetector)
                          (Some Example.silentClassifier)
                          Example.vacatedSpace Example.grayTensor)).
Proof.
  apply (verifyWithModel_preserves_identity_and_range
           (Some Example.carDetector) (Some Example.silentClassifier)
           Example.vacatedSpace Example.grayTensor).
  split; discriminate.
Defined.

Lemma weightedAverageOf_range_witness :
  Wf.inUnit (weightedAverageOf [true; false; true]) /\
  weightedAverageOf [true; true; true] == 1.
Proof.
  split.
  - apply (weightedAverageOf_range [true; false; true]). discriminate.
  - apply (weightedAverageOf_range [true; true; true]); [discriminate|reflexivity].
Defined.


Lemma call_equation (r : Globals * (string + DetectionResult))
  (res : DetectionResult) :
  snd r = inr res -> r = (fst r, inr res).
Proof. destruct r as [g o]. simpl. now intros ->. Defined.

Lemma detect_result_counts_witness :
  match snd Example.tinyFirst with
  | inr res => total res = 1%Z /\ (occupied res + available res = total res)%Z
  | inl _ => False
  end.
Proof.
  destruct (snd Example.tinyFirst) as [e | res] eqn:E; [discriminate E|].
  destruct (detect_result_counts _ _ _ _ _ _ _ _ _ _
              (call_equation Example.tinyFirst res E)) as (Ht & Hsum & _).
  split; [|exact Hsum].
  rewrite Ht. assert (Hs : Example.spacesOf Example.tinyFirst = spaces res).
  { unfold Example.spacesOf. now rewrite E. }
  rewrite <- Hs. reflexivity.
Defined.

Lemma detect_updates_counters_witness :
  frameCount (fst Example.tinyFirst) = 1%Z /\
  lastFrameTime (fst Example.tinyFirst) = 1000%Z.
Proof.
  destruct (detect_updates_counters Example.edgeOfUniform
              Example.textureOfUniform Example.initialGlobals
              (Example.clockAt 1000) None Example.grayVideo [Example.tiny] [])
    as [_ H].
  destruct (H eq_refl) as (H1 & H2 & _). split; assumption.
Defined.

Lemma processed_spaces_follow_valid_regions_witness :
  map region (Example.spacesOf Example.tinyFirst) = [Example.tiny] /\
  map id (Example.spacesOf Example.tinyFirst) = [0%Z].
Proof.
  destruct (snd Example.tinyFirst) as [e | res] eqn:E; [discriminate E|].
  assert (Hs : Example.spacesOf Example.tinyFirst = spaces res).
  { unfold Example.spacesOf. now rewrite E. }
  assert (Hp : path res = Processed).
  { assert (Hq : Example.pathOf Example.tinyFirst = Some Processed)
      by reflexivity.
    unfold Example.pathOf in Hq. rewrite E in Hq. now inversion Hq. }
  destruct (processed_spaces_follow_valid_regions _ _ _ _ _ _ _ _ _ _
              (call_equation Example.tinyFirst res E) Hp) as (H1 & H2 & _).
  rewrite Hs. split; assumption.
Defined.

Lemma stability_score_stays_in_unit_interval_witness :
  Forall Wf.stabilityInUnit (Example.spacesOf Example.tinySecond).
Proof.
  destruct stability_score_stays_in_unit_interval as [Hstep _].
  destruct (snd Example.tinySecond) as [e | res] eqn:E; [discriminate E|].
  assert (Hs : Example.spacesOf Example.tinySecond = spaces res).
  { unfold Example.spacesOf. now rewrite E. }
  rewrite Hs.
  apply (Hstep Example.edgeOfUniform Example.textureOfUniform
               (fst Example.tinyFirst) (Example.clockAt 1100) None
               Example.grayVideo [Example.tiny]
               (Example.spacesOf Example.tinyFirst)
               (fst Example.tinySecond) res).
  - lazy. repeat constructor; discriminate.
  - exact (call_equation Example.tinySecond res E).
Defined.


Lemma first_frame_has_no_motion_witness :
  Forall (fun s => motionScore (features s) = 0)
         (Example.spacesOf Example.repeatFirst).
Proof.
  destruct (snd Example.repeatFirst) as [e | res] eqn:E;
    [vm_compute in E; discriminate E|].
  assert (Hs : Example.spacesOf Example.repeatFirst = spaces res).
  { unfold Example.spacesOf. now rewrite E. }
  assert (Hp : path res = Processed).
  { assert (Hq : Example.pathOf Example.repeatFirst = Some Processed)
      by (vm_compute; reflexivity).
    unfold Example.pathOf in Hq. rewrite E in Hq. now inversion Hq. }
  rewrite Hs.
  apply (first_frame_has_no_motion
           Example.edgeOfUniform Example.textureOfUniform
           Example.initialGlobals (Example.clockAt 1000) None
           Example.grayVideo [Example.slot] [] (fst Example.repeatFirst) res
           (or_introl eq_refl) (call_equation Example.repeatFirst res E) Hp).
Defined.

Lemma motion_score_symmetric_and_zero_on_same_frame_witness :
  calculateEnhancedMotionScore Example.frameA (Some Example.frameB)
  = calculateEnhancedMotionScore Example.frameB (Some Example.frameA).
Proof.
  apply motion_score_symmetric_and_zero_on_same_frame.
  - repeat split; simpl; lia.
  - repeat split; simpl; lia.
  - reflexivity.
Defined.

Lemma call_is_skipped_iff_witness :
  Example.pathOf Example.repeatSecond = Some Skipped.
Proof.
  destruct (call_is_skipped_iff Example.edgeOfUniform Example.textureOfUniform
              (fst Example.repeatFirst) (Example.clockAt 1010) None
              Example.grayVideo [Example.slot] [] eq_refl) as [H _].
  unfold Example.pathOf, Example.repeatSecond, Example.detect.
  rewrite H; [reflexivity|]. vm_compute. reflexivity.
Defined.

